(** * MathJax v3 core: scanner, pipeline and two layout wrappers

    A shallow embedding of
    - [HTMLDomStrings] (the document string scanner),
    - [AbstractMathDocument] (the pipeline state machine),
    - [CommonMfrac.getUVQ] and the [CommonMs] constructor (layout wrappers),
    together with the properties their specification states about them.
    Text is in UTF-16 code units, property lookup follows the prototype
    chain, and the numbers of the layout are binary64 floating-point
    numbers, as in the engine that runs the code. *)

From Stdlib Require Import Ascii String ZArith.
From Stdlib Require PrimFloat Uint63.
From stdpp Require Import base option list strings gmap.

Local Open Scope string_scope.
Local Open Scope list_scope.
Local Open Scope nat_scope.

Set Warnings "-register-all".

(** ** JavaScript strings

    A JavaScript string is a sequence of UTF-16 code units and [s.length]
    counts code units, so text is a [list N].  Tag names, attribute names and
    attribute values are kept as [string]. *)

Abbreviation jsstring := (list N).

Definition code_unit (a : ascii) : N := N_of_ascii a.

Definition js (s : string) : jsstring := map code_unit (list_ascii_of_string s).

(** The class [\s] of ECMAScript regular expressions (WhiteSpace and
    LineTerminator code points); [\S] is its complement. *)
Definition is_whitespace (c : N) : bool :=
  ((9 <=? c) && (c <=? 13) || (c =? 32) || (c =? 160) || (c =? 5760)
   || (8192 <=? c) && (c <=? 8202) || (c =? 8232) || (c =? 8233)
   || (c =? 8239) || (c =? 8287) || (c =? 12288) || (c =? 65279))%N.

(** [s.match(/\S/)] as a truth value. *)
Definition match_nonspace (s : jsstring) : bool :=
  existsb (λ c, negb (is_whitespace c)) s.

(** ** JavaScript values read as text

    [extendString] reads two things of its [text] argument: [text.length],
    and its conversion to a string when it is appended with [+=].  The
    argument is a string when it is the value of a text node or a replacement
    text of the [includeTags] option; [handleTag] can also pass a member that
    the [includeTags] object inherits (see [js_get]): a function, or an
    object. *)
Inductive jsvalue : Type :=
| JsString (s : jsstring)
| JsFunction (arity : nat) (source : jsstring)
| JsObject.

(** [v.length]: the length of a string, the number of declared parameters of
    a function, [undefined] ([None]) for an object without such a property. *)
Definition js_length (v : jsvalue) : option nat :=
  match v with
  | JsString s => Some (length s)
  | JsFunction arity _ => Some arity
  | JsObject => None
  end.

(** ['' + v] *)
Definition js_to_string (v : jsvalue) : jsstring :=
  match v with
  | JsString s => s
  | JsFunction _ source => source
  | JsObject => js "[object Object]"
  end.

(** [obj[key]] for a plain object [obj] with the own properties [own], all
    strings: an own property, or else the member of that name that the
    object inherits from its prototype; [None] is [undefined]. *)
Definition js_get (own : gmap string jsstring) (prototype : gmap string jsvalue)
    (key : string) : option jsvalue :=
  match own !! key with
  | Some s => Some (JsString s)
  | None => prototype !! key
  end.

(** A built-in function, as the V8 engine prints it. *)
Definition native (name : string) (arity : nat) : jsvalue :=
  JsFunction arity (js ("function " ++ name ++ "() { [native code] }")%string).

(** The members of [Object.prototype], which every plain object inherits. *)
Definition Object_prototype : gmap string jsvalue :=
  list_to_map
    [("constructor", native "Object" 1);
     ("hasOwnProperty", native "hasOwnProperty" 1);
     ("isPrototypeOf", native "isPrototypeOf" 1);
     ("propertyIsEnumerable", native "propertyIsEnumerable" 1);
     ("toLocaleString", native "toLocaleString" 0);
     ("toString", native "toString" 0);
     ("valueOf", native "valueOf" 0);
     ("__defineGetter__", native "__defineGetter__" 2);
     ("__defineSetter__", native "__defineSetter__" 2);
     ("__lookupGetter__", native "__lookupGetter__" 1);
     ("__lookupSetter__", native "__lookupSetter__" 1);
     ("__proto__", JsObject)].

(** Truthiness of a string-or-null value: [null] and ['']  are falsy. *)
Definition truthy (v : option string) : bool :=
  match v with
  | Some s => negb (bool_decide (s = ""))
  | None => false
  end.

(** ** The host tree

    A text node carries its value; every other node (elements, and comments
    as childless nodes of kind [#comment]) carries a kind, an attribute map
    and its children. *)
Inductive DOMNode : Type :=
| TextNode (value : jsstring)
| ElementNode (kind : string) (attributes : gmap string string) (children : list DOMNode).

Definition node_kind (n : DOMNode) : string :=
  match n with
  | TextNode _ => "#text"
  | ElementNode k _ _ => k
  end.

Definition node_value (n : DOMNode) : jsstring :=
  match n with
  | TextNode v => v
  | ElementNode _ _ _ => []
  end.

Definition node_attribute (n : DOMNode) (name : string) : option string :=
  match n with
  | TextNode _ => None
  | ElementNode _ a _ => a !! name
  end.

Definition node_children (n : DOMNode) : list DOMNode :=
  match n with
  | TextNode _ => []
  | ElementNode _ _ cs => cs
  end.

Fixpoint node_size (n : DOMNode) : nat :=
  match n with
  | TextNode _ => 1
  | ElementNode _ _ cs => S (sum_list (map node_size cs))
  end.

Definition forest_size (ns : list DOMNode) : nat := sum_list (map node_size ns).

(** A reference to a node of the host tree.  The scanner compares references
    ([node !== stop]), so a reference carries the position of its node: the
    child indices of its ancestors, nearest first, and its own index among
    its siblings.  It also carries what the adaptor reads through it: the
    node and the siblings after it. *)
Record handle : Type := Handle {
  path : list nat;
  index : nat;
  here : DOMNode;
  following : list DOMNode
}.

Definition address (h : handle) : list nat := index h :: path h.

(** The part of the DOM adaptor that the scanner consumes. *)
Module adaptor.

Definition kind (h : handle) : string := node_kind (here h).

Definition value (h : handle) : jsstring := node_value (here h).

Definition getAttribute (h : handle) (name : string) : option string :=
  node_attribute (here h) name.

Definition next (h : handle) : option handle :=
  match following h with
  | [] => None
  | n :: rest => Some (Handle (path h) (S (index h)) n rest)
  end.

Definition firstChild (h : handle) : option handle :=
  match node_children (here h) with
  | [] => None
  | c :: cs => Some (Handle (index h :: path h) 0 c cs)
  end.

(** [adaptor.node(kind, attributes, children)] and [adaptor.text(text)]. *)
Definition node (kind : string) (attributes : gmap string string)
    (children : list DOMNode) : DOMNode :=
  ElementNode kind attributes children.

Definition text (t : string) : DOMNode := TextNode (js t).

End adaptor.

(** ** The document string scanner ([HTMLDomStrings]) *)

(** [HTMLNodeList]: consecutive nodes and the lengths recorded for their
    texts; a recorded length is what [text.length] gave, [None] when that
    was [undefined]. *)
Abbreviation HTMLNodeList := (list (handle * option nat)).

Module HTMLDomStrings.

(** The working state of a scanner.  [stack] is used through [push] and
    [pop] only; its top is the head of the list. *)
Record scanner : Type := Scanner {
  strings : list jsstring;
  string_ : jsstring;
  snodes : HTMLNodeList;
  nodes : list HTMLNodeList;
  stack : list (handle * bool)
}.

Definition init : scanner := Scanner [] [] [] [] [].

(** Add a string to the string array and record its node list. *)
Definition pushString (st : scanner) : scanner :=
  if match_nonspace (string_ st)
  then Scanner (strings st ++ [string_ st]) [] [] (nodes st ++ [snodes st]) (stack st)
  else Scanner (strings st) [] [] (nodes st) (stack st).

(** Add more text to the current string, and record the node. *)
Definition extendString (st : scanner) (node : handle) (text : jsvalue) : scanner :=
  Scanner (strings st) (string_ st ++ js_to_string text)
          (snodes st ++ [(node, js_length text)])
          (nodes st) (stack st).

Definition handleText (st : scanner) (node : handle) (ignore : bool)
    : scanner * option handle :=
  ((if ignore then st else extendString st node (JsString (adaptor.value node))),
   adaptor.next node).

Definition stack_push (st : scanner) (entry : handle * bool) : scanner :=
  Scanner (strings st) (string_ st) (snodes st) (nodes st) (entry :: stack st).

Definition stack_set (st : scanner) (s : list (handle * bool)) : scanner :=
  Scanner (strings st) (string_ st) (snodes st) (nodes st) s.

Section Options.

(** The patterns built by [getPatterns] from the options, as the truth value
    of their [exec]; the own properties of the [includeTags] option, and the
    members that this object inherits from its prototype. *)
Context (skipTags ignoreClass processClass : string → bool).
Context (includeTags : gmap string jsstring).
Context (prototype : gmap string jsvalue).

(** [this.options['includeTags'][kind]] and [include[kind]] *)
Definition include (kind : string) : option jsvalue :=
  js_get includeTags prototype kind.

(** [find] calls [handleTag] only for a kind for which [include] is not
    [undefined]; for any other kind [text.length] would throw. *)
Definition handleTag (st : scanner) (node : handle) (ignore : bool)
    : scanner * option handle :=
  ((if ignore then st
    else match include (adaptor.kind node) with
         | Some text => extendString st node text
         | None => st
         end),
   adaptor.next node).

Definition handleContainer (st : scanner) (node : handle) (ignore : bool)
    : scanner * option handle * bool :=
  let st := pushString st in
  let cname := default "" (adaptor.getAttribute node "class") in
  let tname := adaptor.kind node in
  let process := processClass cname in
  match adaptor.firstChild node with
  | Some child =>
      if negb (truthy (adaptor.getAttribute node "data-MJX"))
         && (process || negb (skipTags tname))
      then
        let st := match adaptor.next node with
                  | Some nx => stack_push st (nx, ignore)
                  | None => st
                  end in
        (st, Some child, (ignore || ignoreClass cname) && negb process)
      else (st, adaptor.next node, ignore)
  | None => (st, adaptor.next node, ignore)
  end.

(** [node !== stop], for a non-null [node]. *)
Definition differs (node : handle) (stop : option handle) : bool :=
  match stop with
  | Some s => negb (bool_decide (address node = address s))
  | None => true
  end.

(** One turn of the [while] loop of [find], entered with a non-null node. *)
Definition turn (st : scanner) (node : handle) (ignore : bool)
    : scanner * option handle * bool :=
  let '(st, next, ignore) :=
    if bool_decide (adaptor.kind node = "#text")
    then let '(st, next) := handleText st node ignore in (st, next, ignore)
    else if bool_decide (is_Some (include (adaptor.kind node)))
    then let '(st, next) := handleTag st node ignore in (st, next, ignore)
    else handleContainer st node ignore in
  match next, stack st with
  | None, (resume, ignore') :: rest =>
      (stack_set (pushString st) rest, Some resume, ignore')
  | _, _ => (st, next, ignore)
  end.

(** The [while] loop itself, cut off after [fuel] turns. *)
Fixpoint while (fuel : nat) (stop : option handle)
    (st : scanner) (node : option handle) (ignore : bool)
    : scanner * option handle * bool :=
  match fuel, node with
  | S fuel', Some h =>
      if differs h stop
      then let '(st', node', ignore') := turn st h ignore in
           while fuel' stop st' node' ignore'
      else (st, node, ignore)
  | _, _ => (st, node, ignore)
  end.

(** The loop has run to its end when its condition is false. *)
Definition finished (stop : option handle) (node : option handle) : bool :=
  match node with
  | Some h => negb (differs h stop)
  | None => true
  end.

(** Every turn consumes one node of the forest that starts at the root, so
    this many turns are enough (see [while_finishes]). *)
Definition turns (node : handle) : nat := forest_size (here node :: following node).

Definition find (node : handle) : list jsstring * list HTMLNodeList :=
  let stop := adaptor.next node in
  let '(st, _, _) := while (turns node) stop init (Some node) false in
  let st := pushString st in
  (strings st, nodes st).

(** *** Positions below the root of a scan

    What the specification says about a scan is stated on positions: the
    node found from the root along a list of child indices, and the ignore
    flag it inherits from the containers on the way. *)

(** The node reached from [n] along the child indices [p]. *)
Fixpoint subtree_at (n : DOMNode) (p : list nat) : option DOMNode :=
  match p with
  | [] => Some n
  | i :: p' =>
      match node_children n !! i with
      | Some c => subtree_at c p'
      | None => None
      end
  end.

(** A node marked as created by the engine: a truthy [data-MJX]. *)
Definition marked (n : DOMNode) : bool := truthy (node_attribute n "data-MJX").

Definition class_of (n : DOMNode) : string := default "" (node_attribute n "class").

(** Neither a text node nor a node that [find] takes for an included tag. *)
Definition is_container (n : DOMNode) : bool :=
  negb (bool_decide (node_kind n = "#text"))
  && negb (bool_decide (is_Some (include (node_kind n)))).

(** Step 4 of the algorithm: a container is descended into iff it has a
    child, is not marked, and is a process-class node or not a skipped tag. *)
Definition entered (n : DOMNode) : bool :=
  is_container n && negb (bool_decide (node_children n = []))
  && negb (marked n)
  && (processClass (class_of n) || negb (skipTags (node_kind n))).

(** The ignore flag of the children: (ignore OR ignore-class) AND NOT process. *)
Definition inherit (n : DOMNode) (ignore : bool) : bool :=
  (ignore || ignoreClass (class_of n)) && negb (processClass (class_of n)).

(** The node at [p] together with its inherited ignore flag, provided every
    node on the way to it is a container that is descended into. *)
Fixpoint route (n : DOMNode) (p : list nat) (ignore : bool) : option (DOMNode * bool) :=
  match p with
  | [] => Some (n, ignore)
  | i :: p' =>
      if entered n then
        match node_children n !! i with
        | Some c => route c p' (inherit n ignore)
        | None => None
        end
      else None
  end.

(** What [extendString] is given for a node: its value, or what [include]
    has for its kind. *)
Definition value_of (h : handle) : jsvalue :=
  if bool_decide (adaptor.kind h = "#text") then JsString (adaptor.value h)
  else default (JsString []) (include (adaptor.kind h)).

(** The text a node adds to a string, and the length recorded for it. *)
Definition text_of (h : handle) : jsstring := js_to_string (value_of h).

Definition length_of (h : handle) : option nat := js_length (value_of h).

(** [h] is the node at position [p] below the root [r] of the scan, reached
    through containers that are descended into, with ignore flag [ignore]. *)
Definition placed (r : handle) (p : list nat) (h : handle) (ignore : bool) : Prop :=
  address h = rev p ++ address r ∧ route (here r) p false = Some (here h, ignore).

End Options.

(** The default options. *)
Definition lower (s : string) : string :=
  string_of_list_ascii
    (map (λ a, let n := nat_of_ascii a in
               if (65 <=? n)%nat && (n <=? 90)%nat then ascii_of_nat (n + 32) else a)
         (list_ascii_of_string s)).

Fixpoint words (cur : string) (s : string) : list string :=
  match s with
  | EmptyString => [cur]
  | String a s' =>
      if bool_decide (a = " "%char) then cur :: words "" s'
      else words (cur ++ String a "")%string s'
  end.

(** [/^(?:script|noscript|...)$/i] *)
Definition default_skipTags (tname : string) : bool :=
  bool_decide (lower tname ∈
    ["script"; "noscript"; "style"; "textarea"; "pre"; "code";
     "annotation"; "annotation-xml"]).

(** [/(?:^| )(?:tex2jax_ignore)(?: |$)/] *)
Definition default_ignoreClass (cname : string) : bool :=
  bool_decide ("tex2jax_ignore" ∈ words "" cname).

(** [/(?:^| )(?:tex2jax_process)(?: |$)/] *)
Definition default_processClass (cname : string) : bool :=
  bool_decide ("tex2jax_process" ∈ words "" cname).

Definition default_includeTags : gmap string jsstring :=
  <["br" := js (String "010"%char "")]> (<["wbr" := []]> (<["#comment" := []]> ∅)).

Definition default_find : handle → list jsstring * list HTMLNodeList :=
  find default_skipTags default_ignoreClass default_processClass default_includeTags
       Object_prototype.

End HTMLDomStrings.

(** ** The internal tree used for the error fallback *)

Inductive MmlNode : Type :=
| MmlElement (kind : string) (attributes : gmap string string) (childNodes : list MmlNode)
| MmlText (text : string).

Module MmlFactory.

(** Modelled from the spec: [MmlFactory.create(kind, attributes, children)]
    ([MmlFactory] and the node classes are not among the sources) builds the
    internal-tree node of that kind with these attributes and children. *)
Definition create (kind : string) (attributes : gmap string string)
    (children : list MmlNode) : MmlNode :=
  MmlElement kind attributes children.

(** [(create('text') as TextNode).setText(text)] *)
Definition create_text (text : string) : MmlNode := MmlText text.

End MmlFactory.

Definition mml_attribute (n : MmlNode) (name : string) : option string :=
  match n with
  | MmlElement _ a _ => a !! name
  | MmlText _ => None
  end.

(** [node.attributes.set(name, value)] *)
Definition mml_attributes_set (n : MmlNode) (name value : string) : MmlNode :=
  match n with
  | MmlElement k a cs => MmlElement k (<[name := value]> a) cs
  | MmlText t => MmlText t
  end.

(** ** The pipeline ([AbstractMathDocument]) *)

(** An error object, with the two fields the pipeline looks at. *)
Record Error : Type := MkError {
  message : string;
  retry : bool;
  restart : bool
}.

Record MathItem : Type := MkMathItem {
  math : string;
  display : bool;
  item_state : Z;
  root : option MmlNode;
  typesetRoot : option DOMNode;
  inputData : gmap string Error;
  outputData : gmap string Error
}.

Definition set_root (m : MathItem) (r : MmlNode) : MathItem :=
  MkMathItem (math m) (display m) (item_state m) (Some r) (typesetRoot m)
             (inputData m) (outputData m).

Definition set_typesetRoot (m : MathItem) (n : DOMNode) : MathItem :=
  MkMathItem (math m) (display m) (item_state m) (root m) (Some n)
             (inputData m) (outputData m).

Definition set_inputData (m : MathItem) (key : string) (e : Error) : MathItem :=
  MkMathItem (math m) (display m) (item_state m) (root m) (typesetRoot m)
             (<[key := e]> (inputData m)) (outputData m).

Definition set_outputData (m : MathItem) (key : string) (e : Error) : MathItem :=
  MkMathItem (math m) (display m) (item_state m) (root m) (typesetRoot m)
             (inputData m) (<[key := e]> (outputData m)).

Definition set_item_state (m : MathItem) (s : Z) : MathItem :=
  MkMathItem (math m) (display m) s (root m) (typesetRoot m)
             (inputData m) (outputData m).

Record MathProcessed : Type := MkProcessed {
  p_findMath : bool;
  p_compile : bool;
  p_getMetrics : bool;
  p_typeset : bool;
  p_updateDocument : bool
}.

(** The document: its [MathList], in document order, and its flags. *)
Record MathDocument : Type := MkDocument {
  doc_math : list MathItem;
  processed : MathProcessed
}.

Definition set_math (doc : MathDocument) (l : list MathItem) : MathDocument :=
  MkDocument l (processed doc).

Definition set_processed (doc : MathDocument) (p : MathProcessed) : MathDocument :=
  MkDocument (doc_math doc) p.

Module AbstractMathDocument.

(** Produce an error using MmlNodes. *)
Definition compileError (m : MathItem) (err : Error) : MathItem :=
  let root :=
    MmlFactory.create "math" (<["data-mjx-error" := message err]> ∅)
      [MmlFactory.create "merror" ∅
         [MmlFactory.create "mtext" ∅
            [MmlFactory.create_text "Math input error"]]] in
  set_root m (if display m then mml_attributes_set root "display" "block" else root).

(** Produce an error using HTML. *)
Definition typesetError (m : MathItem) (err : Error) : MathItem :=
  set_typesetRoot m
    (adaptor.node "span" (<["data-mjx-error" := message err]> ∅)
       [adaptor.text "Math output error"]).

Section Pipeline.

(** Everything outside the document that its collaborators read and change:
    the host tree, the state of the input and output processors. *)
Context {world : Type}.

(** A call either returns or throws; in both cases the objects it has
    changed stay changed. *)
Definition outcome (A : Type) : Type := (A * world * option Error)%type.

(** The collaborators: the per-item operations [math.compile(doc)],
    [math.typeset(doc)], [math.updateDocument(doc)] and
    [math.state(state, restore)], [outputJax.getMetrics(doc)], and the
    [compileError] and [typesetError] options. *)
Context (item_compile item_typeset item_updateDocument
           : MathItem → world → outcome MathItem).
Context (item_set_state : Z → bool → MathItem → world → outcome MathItem).
Context (jax_getMetrics : world → world * option Error).
Context (compileErrorOption typesetErrorOption
           : MathItem → Error → world → outcome MathItem).

(** The values of [STATE]. *)
Context (COMPILED TYPESET INSERTED : Z).

(** [for (const math of list) body(math)], stopping at the first throw. *)
Fixpoint for_of (body : MathItem → world → outcome MathItem)
    (items : list MathItem) (w : world) : outcome (list MathItem) :=
  match items with
  | [] => ([], w, None)
  | m :: rest =>
      let '(m', w', r) := body m w in
      match r with
      | Some e => (m' :: rest, w', Some e)
      | None =>
          let '(rest', w'', r') := for_of body rest w' in
          (m' :: rest', w'', r')
      end
  end.

(** Modelled from the spec: [MathList.reversed()] ([MathList] is not among
    the sources) iterates the list in reverse order. *)
Definition reversed (l : list MathItem) : list MathItem := rev l.

Definition findMath (doc : MathDocument) (w : world) : outcome MathDocument :=
  let p := processed doc in
  (set_processed doc
     (MkProcessed true (p_compile p) (p_getMetrics p) (p_typeset p) (p_updateDocument p)),
   w, None).

(** The body of the loop of [compile]: the [try] and its [catch]. *)
Definition compile_body (m : MathItem) (w : world) : outcome MathItem :=
  let '(m, w, r) := item_compile m w in
  match r with
  | None => (m, w, None)
  | Some err =>
      if retry err || restart err then (m, w, Some err)
      else
        let '(m, w, r) := compileErrorOption m err w in
        match r with
        | Some e => (m, w, Some e)
        | None => (set_inputData m "error" err, w, None)
        end
  end.

Definition compile (doc : MathDocument) (w : world) : outcome MathDocument :=
  if p_compile (processed doc) then (doc, w, None)
  else
    let '(items, w, r) := for_of compile_body (doc_math doc) w in
    let doc := set_math doc items in
    match r with
    | Some e => (doc, w, Some e)
    | None =>
        let p := processed doc in
        (set_processed doc
           (MkProcessed (p_findMath p) true (p_getMetrics p) (p_typeset p)
                        (p_updateDocument p)),
         w, None)
    end.

Definition typeset_body (m : MathItem) (w : world) : outcome MathItem :=
  let '(m, w, r) := item_typeset m w in
  match r with
  | None => (m, w, None)
  | Some err =>
      if retry err || restart err then (m, w, Some err)
      else
        let '(m, w, r) := typesetErrorOption m err w in
        match r with
        | Some e => (m, w, Some e)
        | None => (set_outputData m "error" err, w, None)
        end
  end.

Definition typeset (doc : MathDocument) (w : world) : outcome MathDocument :=
  if p_typeset (processed doc) then (doc, w, None)
  else
    let '(items, w, r) := for_of typeset_body (doc_math doc) w in
    let doc := set_math doc items in
    match r with
    | Some e => (doc, w, Some e)
    | None =>
        let p := processed doc in
        (set_processed doc
           (MkProcessed (p_findMath p) (p_compile p) (p_getMetrics p) true
                        (p_updateDocument p)),
         w, None)
    end.

Definition getMetrics (doc : MathDocument) (w : world) : outcome MathDocument :=
  if p_getMetrics (processed doc) then (doc, w, None)
  else
    let '(w, r) := jax_getMetrics w in
    match r with
    | Some e => (doc, w, Some e)
    | None =>
        let p := processed doc in
        (set_processed doc
           (MkProcessed (p_findMath p) (p_compile p) true (p_typeset p)
                        (p_updateDocument p)),
         w, None)
    end.

Definition updateDocument (doc : MathDocument) (w : world) : outcome MathDocument :=
  if p_updateDocument (processed doc) then (doc, w, None)
  else
    let '(items, w, r) := for_of item_updateDocument (reversed (doc_math doc)) w in
    let doc := set_math doc (rev items) in
    match r with
    | Some e => (doc, w, Some e)
    | None =>
        let p := processed doc in
        (set_processed doc
           (MkProcessed (p_findMath p) (p_compile p) (p_getMetrics p) (p_typeset p)
                        true),
         w, None)
    end.

Definition state (target : Z) (restore : bool)
    (doc : MathDocument) (w : world) : outcome MathDocument :=
  let '(items, w, r) := for_of (item_set_state target restore) (doc_math doc) w in
  let doc := set_math doc items in
  match r with
  | Some e => (doc, w, Some e)
  | None =>
      let p := processed doc in
      let p := if (target <? INSERTED)%Z
               then MkProcessed (p_findMath p) (p_compile p) (p_getMetrics p)
                                (p_typeset p) false
               else p in
      let p := if (target <? TYPESET)%Z
               then MkProcessed (p_findMath p) (p_compile p) false false
                                (p_updateDocument p)
               else p in
      let p := if (target <? COMPILED)%Z
               then MkProcessed (p_findMath p) false (p_getMetrics p) (p_typeset p)
                                (p_updateDocument p)
               else p in
      (set_processed doc p, w, None)
  end.

Definition reset (doc : MathDocument) (w : world) : outcome MathDocument :=
  (set_processed doc (MkProcessed false false false false false), w, None).

(** Chained calls, [doc.f().g()]: [g] runs if [f] returns. *)
Definition chain (f g : MathDocument → world → outcome MathDocument)
    (doc : MathDocument) (w : world) : outcome MathDocument :=
  let '(doc, w, r) := f doc w in
  match r with
  | Some e => (doc, w, Some e)
  | None => g doc w
  end.

(** [doc.findMath().compile().getMetrics().typeset().updateDocument()] *)
Definition full_run : MathDocument → world → outcome MathDocument :=
  chain findMath (chain compile (chain getMetrics (chain typeset updateDocument))).

(** The default options call the methods of the document. *)
Definition default_compileError (m : MathItem) (err : Error) (w : world)
    : outcome MathItem :=
  (compileError m err, w, None).

Definition default_typesetError (m : MathItem) (err : Error) (w : world)
    : outcome MathItem :=
  (typesetError m err, w, None).

End Pipeline.

End AbstractMathDocument.

(** ** The fraction wrapper ([CommonMfrac]) *)

Module CommonMfrac.

Section Numbers.

(** The numbers of the layout engine and the operations [getUVQ] applies to
    them.  Nothing is assumed of the operations here, so what is proved in
    this section holds of any arithmetic, rounding or exact. *)
Context {num : Type}.
Context (add sub mul div : num → num → num) (lt : num → num → bool).
Context (lit : Z → num).

(** The fields of a bounding box. *)
Record BBox : Type := MkBBox {
  w : num;
  h : num;
  d : num;
  scale : num;
  rscale : num
}.

(** The parameters [font.params] that [getUVQ] reads. *)
Record FontParams : Type := MkFontParams {
  num1 : num;
  num3 : num;
  denom1 : num;
  denom2 : num;
  rule_thickness : num
}.

Record UVQ : Type := MkUVQ {
  u : num;
  v : num;
  q : num;
  nbox : BBox;
  dbox : BBox
}.

(** [nbox] and [dbox] are the boxes of [childNodes[0]] and [childNodes[1]]. *)
Definition getUVQ (tex : FontParams) (nbox dbox : BBox) (display : bool) : UVQ :=
  let '(u, v) := if display then (num1 tex, denom1 tex) else (num3 tex, denom2 tex) in
  let p := mul (if display then lit 7 else lit 3) (rule_thickness tex) in
  let q := sub (sub u (mul (d nbox) (scale nbox))) (sub (mul (h dbox) (scale dbox)) v) in
  if lt q p
  then MkUVQ (add u (div (sub p q) (lit 2))) (add v (div (sub p q) (lit 2))) p nbox dbox
  else MkUVQ u v q nbox dbox.

End Numbers.

(** The numbers of JavaScript are IEEE 754 binary64 floating-point numbers:
    [+], [-], [*] and [/] round to nearest, ties to even, and [<] is false
    when an operand is NaN.  These are the operations of [PrimFloat]; an
    integer literal is the number of that value. *)
Definition double : Type := PrimFloat.float.

Definition double_of_Z (z : Z) : double := PrimFloat.of_uint63 (Uint63.of_Z z).

Definition getUVQ_double : FontParams → BBox → BBox → bool → UVQ :=
  getUVQ PrimFloat.add PrimFloat.sub PrimFloat.mul PrimFloat.div PrimFloat.ltb
         double_of_Z.

End CommonMfrac.

(** ** The quoted-text wrapper ([CommonMs]) *)

Module CommonMs.

(** What the constructor asks of [node.attributes]: whether a name is set on
    the node itself, and the value in force for a name. *)
Record Attributes : Type := MkAttributes {
  isSet : string → bool;
  get : string → list N
}.

Inductive Wrapper : Type :=
| MkWrapper (kind : string) (text : list N) (childNodes : list Wrapper).

(** The wrapper as the base constructor leaves it. *)
Record Ms : Type := MkMs {
  attributes : Attributes;
  variant : string;
  childNodes : list Wrapper
}.

Definition quotation_mark : list N := [34%N].
Definition left_double_quotation_mark : list N := [8220%N].
Definition right_double_quotation_mark : list N := [8221%N].

(** Modelled from the spec: [wrap(mmlText(text))] ([wrap] and [mmlText] are
    methods of the base wrapper class, which is not among the sources) is
    the text wrapper synthesized for [text]: a wrapper of kind [text] that
    carries the text and has no children.  Its [parent] is the wrapper in
    whose [childNodes] it is put. *)
Definition wrap_mmlText (text : list N) : Wrapper := MkWrapper "text" text [].

(** Create a text wrapper with the given text. *)
Definition createText (text : list N) : Wrapper := wrap_mmlText text.

Definition constructor (base : Ms) : Ms :=
  let attributes := attributes base in
  let lquote := get attributes "lquote" in
  let rquote := get attributes "rquote" in
  let lquote :=
    if negb (bool_decide (variant base = "monospace"))
       && negb (isSet attributes "lquote")
       && bool_decide (lquote = quotation_mark)
    then left_double_quotation_mark else lquote in
  let rquote :=
    if negb (bool_decide (variant base = "monospace"))
       && negb (isSet attributes "rquote")
       && bool_decide (rquote = quotation_mark)
    then right_double_quotation_mark else rquote in
  let childNodes := createText lquote :: childNodes base in
  let childNodes := childNodes ++ [createText rquote] in
  MkMs attributes (variant base) childNodes.

End CommonMs.

(** * Properties of the scanner *)

Section ScannerFacts.

Import HTMLDomStrings.

Context (skipTags ignoreClass processClass : string → bool).
Context (includeTags : gmap string jsstring).
Context (prototype : gmap string jsvalue).

Local Abbreviation include := (include includeTags prototype).
Local Abbreviation handleTag := (handleTag includeTags prototype).
Local Abbreviation handleContainer := (handleContainer skipTags ignoreClass processClass).
Local Abbreviation turn := (turn skipTags ignoreClass processClass includeTags prototype).
Local Abbreviation while := (while skipTags ignoreClass processClass includeTags prototype).
Local Abbreviation find := (find skipTags ignoreClass processClass includeTags prototype).
Local Abbreviation entered := (entered skipTags processClass includeTags prototype).
Local Abbreviation inherit := (inherit ignoreClass processClass).
Local Abbreviation route :=
  (route skipTags ignoreClass processClass includeTags prototype).
Local Abbreviation placed :=
  (placed skipTags ignoreClass processClass includeTags prototype).
Local Abbreviation value_of := (value_of includeTags prototype).
Local Abbreviation text_of := (text_of includeTags prototype).
Local Abbreviation length_of := (length_of includeTags prototype).

(** *** The loop of [find] runs to its end *)

Definition handle_size (h : handle) : nat :=
  node_size (here h) + forest_size (following h).

Definition pending (st : scanner) (node : option handle) : nat :=
  from_option handle_size 0 node + sum_list (map (λ e, handle_size e.1) (stack st)).

Lemma node_size_pos n : 0 < node_size n.
Proof. destruct n; simpl; lia. Qed.

Lemma next_size h :
  from_option handle_size 0 (adaptor.next h) = forest_size (following h).
Proof.
  unfold adaptor.next. destruct (following h) as [|n rest]; [done|].
  reflexivity.
Qed.

Lemma firstChild_size h c :
  adaptor.firstChild h = Some c → node_size (here h) = S (handle_size c).
Proof.
  unfold adaptor.firstChild, handle_size.
  destruct (here h) as [v|k a cs]; simpl; [done|].
  destruct cs as [|c0 cs]; [done|]. intros [= <-]. reflexivity.
Qed.

Lemma stack_pushString st : stack (pushString st) = stack st.
Proof. unfold pushString. by destruct (match_nonspace _). Qed.

Lemma stack_handleText st h ig : stack (handleText st h ig).1 = stack st.
Proof. unfold handleText. by destruct ig. Qed.

Lemma stack_handleTag st h ig : stack (handleTag st h ig).1 = stack st.
Proof.
  unfold HTMLDomStrings.handleTag. destruct ig; [done|].
  by destruct (include _).
Qed.

(** What [turn] does once the node has been handled: resume from the stack
    when there is no next node. *)
Definition resume (s : scanner * option handle * bool) : scanner * option handle * bool :=
  match s.1.2, stack s.1.1 with
  | None, (h, ig) :: rest => (stack_set (pushString s.1.1) rest, Some h, ig)
  | _, _ => s
  end.

Definition handled (st : scanner) (h : handle) (ig : bool)
    : scanner * option handle * bool :=
  if bool_decide (adaptor.kind h = "#text")
  then ((handleText st h ig).1, (handleText st h ig).2, ig)
  else if bool_decide (is_Some (include (adaptor.kind h)))
  then ((handleTag st h ig).1, (handleTag st h ig).2, ig)
  else handleContainer st h ig.

Lemma turn_resume st h ig : turn st h ig = resume (handled st h ig).
Proof.
  unfold HTMLDomStrings.turn, handled, resume.
  repeat case_bool_decide; simpl; try reflexivity.
  by destruct (handleContainer st h ig) as [[st' n'] ig'].
Qed.

Lemma resume_pending s :
  pending (resume s).1.1 (resume s).1.2 = pending s.1.1 s.1.2.
Proof.
  destruct s as [[st node] ig]. unfold resume; simpl.
  destruct node as [h|]; [done|].
  destruct (stack st) as [|[h' ig'] rest] eqn:E; [done|].
  unfold pending; simpl. rewrite E. simpl. lia.
Qed.

Lemma handled_pending st h ig :
  pending (handled st h ig).1.1 (handled st h ig).1.2 < pending st (Some h).
Proof.
  pose proof (node_size_pos (here h)) as Hpos.
  pose proof (next_size h) as Hn.
  unfold handled, pending.
  repeat case_bool_decide.
  - cbn [fst snd]. rewrite stack_handleText.
    generalize (sum_list (map (λ e : handle * bool, handle_size e.1) (stack st))).
    cbn [handleText fst snd from_option] in *. rewrite ?Hn. unfold handle_size. lia.
  - cbn [fst snd]. rewrite stack_handleTag.
    generalize (sum_list (map (λ e : handle * bool, handle_size e.1) (stack st))).
    cbn [HTMLDomStrings.handleTag fst snd from_option] in *.
    rewrite ?Hn. unfold handle_size. lia.
  - unfold HTMLDomStrings.handleContainer.
    destruct (adaptor.firstChild h) as [c|] eqn:Hc.
    + apply firstChild_size in Hc.
      destruct (negb _ && _).
      * destruct (adaptor.next h) as [nx|];
          cbn [fst snd stack stack_push map sum_list from_option] in *;
          rewrite stack_pushString;
          generalize (sum_list (map (λ e : handle * bool, handle_size e.1) (stack st)));
          unfold handle_size, id in *; lia.
      * cbn [fst snd from_option]. rewrite stack_pushString.
        generalize (sum_list (map (λ e : handle * bool, handle_size e.1) (stack st))).
        rewrite ?Hn. unfold handle_size. lia.
    + cbn [fst snd from_option]. rewrite stack_pushString.
      generalize (sum_list (map (λ e : handle * bool, handle_size e.1) (stack st))).
      rewrite ?Hn. unfold handle_size. lia.
Qed.

Lemma turn_pending st h ig :
  pending (turn st h ig).1.1 (turn st h ig).1.2 < pending st (Some h).
Proof.
  rewrite turn_resume, resume_pending. apply handled_pending.
Qed.

Lemma while_finishes fuel stop st node ig :
  pending st node ≤ fuel →
  finished stop (while fuel stop st node ig).1.2 = true.
Proof.
  revert st node ig.
  induction fuel as [|fuel IH]; intros st node ig Hle.
  - destruct node as [h|]; [|done].
    pose proof (node_size_pos (here h)).
    unfold pending, handle_size in Hle. simpl in Hle. lia.
  - destruct node as [h|]; [|done]. simpl.
    destruct (differs h stop) eqn:Hd.
    + pose proof (turn_pending st h ig) as Hlt.
      destruct (turn st h ig) as [[st' node'] ig']. simpl in Hlt.
      apply IH. lia.
    + simpl. by rewrite Hd.
Qed.

(** *** Positions *)

Lemma route_snoc n p i ig :
  route n (p ++ [i]) ig =
  match route n p ig with
  | Some (m, ig') =>
      if entered m then
        match node_children m !! i with
        | Some c => Some (c, inherit m ig')
        | None => None
        end
      else None
  | None => None
  end.
Proof.
  revert n ig. induction p as [|j p IH]; intros n ig; simpl.
  - destruct (entered n); [|done]. by destruct (node_children n !! i).
  - destruct (entered n); [|done].
    destruct (node_children n !! j) as [c|]; [|done]. apply IH.
Qed.

Lemma route_subtree n p ig m ig' :
  route n p ig = Some (m, ig') → subtree_at n p = Some m.
Proof.
  revert n ig. induction p as [|i p IH]; intros n ig; simpl.
  - by intros [= -> _].
  - destruct (entered n); [|done].
    destruct (node_children n !! i) as [c|]; [|done]. apply IH.
Qed.

(** On a route every node above the end is entered, hence not marked. *)
Lemma route_entered n p ig m ig' p1 p2 a :
  route n p ig = Some (m, ig') →
  p = p1 ++ p2 → p2 ≠ [] → subtree_at n p1 = Some a →
  entered a = true.
Proof.
  revert n ig p. induction p1 as [|i p1 IH]; intros n ig p Hr -> Hne; simpl.
  - intros [= <-]. destruct p2 as [|j p2]; [done|]. simpl in Hr.
    by destruct (entered n).
  - simpl in Hr. destruct (entered n); [|done].
    destruct (node_children n !! i) as [c|]; [|done].
    intros Ha. by eapply IH.
Qed.

Lemma entered_unmarked a : entered a = true → marked a = false.
Proof.
  unfold HTMLDomStrings.entered. intros H.
  repeat (apply andb_prop in H as [H ?]).
  by apply negb_true_iff.
Qed.

(** [h] sits at position [p] below [r] and its [following] are the later
    children of its parent. *)
Definition sited (r : handle) (p : list nat) (h : handle) (ig : bool) : Prop :=
  placed r p h ig ∧
  match rev p with
  | [] => following h = following r
  | i :: q =>
      ∃ par ig0, route (here r) (rev q) false = Some (par, ig0)
                 ∧ following h = drop (S i) (node_children par)
  end.

Lemma sited_root r : sited r [] r false.
Proof. by repeat split. Qed.

Lemma sited_firstChild r p h ig c :
  sited r p h ig → entered (here h) = true → adaptor.firstChild h = Some c →
  sited r (p ++ [0]) c (inherit (here h) ig).
Proof.
  intros [[Ha Hr] _] He Hc.
  unfold adaptor.firstChild in Hc.
  destruct (node_children (here h)) as [|c0 cs] eqn:Hcs; [done|].
  injection Hc as <-.
  split; [split|].
  - unfold address in *. simpl. rewrite rev_app_distr. simpl. by rewrite Ha.
  - rewrite route_snoc, Hr, He, Hcs. reflexivity.
  - rewrite rev_app_distr. simpl. exists (here h), ig.
    rewrite rev_involutive, Hcs. by split.
Qed.

Lemma sited_next r p h ig h' :
  sited r p h ig → p ≠ [] → adaptor.next h = Some h' →
  ∃ p', p' ≠ [] ∧ sited r p' h' ig.
Proof.
  intros [[Ha Hr] Hs] Hne Hn.
  destruct (rev p) as [|i q] eqn:Hp.
  { apply (f_equal (@rev nat)) in Hp. rewrite rev_involutive in Hp. done. }
  assert (p = rev q ++ [i]) as ->.
  { apply (f_equal (@rev nat)) in Hp. by rewrite rev_involutive in Hp. }
  destruct Hs as (par & ig0 & Hpar & Hf).
  unfold adaptor.next in Hn.
  destruct (following h) as [|n rest] eqn:Hfol; [done|].
  injection Hn as <-.
  rewrite route_snoc, Hpar in Hr.
  destruct (entered par) eqn:He; [|done].
  destruct (node_children par !! i) as [c|] eqn:Hi; [|done].
  injection Hr as Hc Hig.
  assert (node_children par !! S i = Some n) as HSi.
  { pose proof (lookup_drop (node_children par) (S i) 0) as Hl.
    rewrite <- Hf in Hl. simpl in Hl. rewrite Nat.add_0_r in Hl. done. }
  assert (rest = drop (S (S i)) (node_children par)) as Hrest.
  { pose proof (drop_drop (node_children par) 1 (S i)) as Hd.
    rewrite <- Hf in Hd. simpl in Hd. rewrite drop_0 in Hd.
    rewrite Hd. f_equal. lia. }
  exists (rev q ++ [S i]). split; [by destruct (rev q)|].
  split; [split|].
  - unfold address in *. simpl. rewrite rev_app_distr, rev_involutive in *.
    simpl in *. injection Ha as Hi' ->. by rewrite Hi'.
  - rewrite route_snoc, Hpar, He, HSi. by rewrite Hig.
  - rewrite rev_app_distr, rev_involutive. simpl. by exists par, ig0.
Qed.

(** A node to go on with: the sibling after the root, where the scan stops,
    or a node below the root. *)
Definition resumable (r : handle) (h : handle) (ig : bool) : Prop :=
  adaptor.next r = Some h ∨ ∃ p, p ≠ [] ∧ sited r p h ig.

Lemma resumable_next r p h ig h' :
  sited r p h ig → adaptor.next h = Some h' → resumable r h' ig.
Proof.
  intros Hs Hn. destruct p as [|i p].
  - left. destruct Hs as [[Ha _] Hf]. simpl in *.
    unfold adaptor.next, address in *. injection Ha as Hi Hp.
    rewrite <- Hf, <- Hi, <- Hp. done.
  - right. by eapply sited_next.
Qed.

(** *** The invariant of the loop *)

(** A provenance entry records the length read off what its node was taken
    for, and the node was reached with the ignore flag off. *)
Definition entry_ok (r : handle) (e : handle * option nat) : Prop :=
  e.2 = length_of e.1 ∧ ∃ p, placed r p e.1 false.

(** A string is the texts of the nodes of its provenance list, in order. *)
Definition prov_ok (r : handle) (s : list N) (ns : HTMLNodeList) : Prop :=
  s = concat (map (λ e, text_of e.1) ns) ∧ Forall (entry_ok r) ns.

Definition scan_inv (r : handle) (s : scanner * option handle * bool) : Prop :=
  prov_ok r (string_ s.1.1) (snodes s.1.1)
  ∧ Forall2 (prov_ok r) (strings s.1.1) (nodes s.1.1)
  ∧ Forall (λ e, resumable r e.1 e.2) (stack s.1.1)
  ∧ match s.1.2 with
    | Some h => adaptor.next r = Some h ∨ ∃ p, sited r p h s.2
    | None => True
    end.

Ltac split_inv := split; [|split; [|split]].

Lemma prov_ok_nil r : prov_ok r [] [].
Proof. by split. Qed.

Lemma pushString_ok r st :
  prov_ok r (string_ st) (snodes st) →
  Forall2 (prov_ok r) (strings st) (nodes st) →
  prov_ok r (string_ (pushString st)) (snodes (pushString st))
  ∧ Forall2 (prov_ok r) (strings (pushString st)) (nodes (pushString st)).
Proof.
  intros Hcur Hall. unfold pushString.
  destruct (match_nonspace (string_ st)); simpl.
  - split; [apply prov_ok_nil|]. apply Forall2_app; [done|]. by constructor.
  - split; [apply prov_ok_nil|done].
Qed.

Lemma extendString_ok r st h :
  (∃ p, placed r p h false) →
  prov_ok r (string_ st) (snodes st) →
  prov_ok r (string_ (extendString st h (value_of h)))
            (snodes (extendString st h (value_of h))).
Proof.
  intros Hp [Hs Hall]. unfold extendString; simpl. split.
  - rewrite map_app, concat_app. simpl. by rewrite app_nil_r, <- Hs.
  - apply Forall_app. split; [done|]. by repeat constructor.
Qed.

Lemma value_of_text h :
  adaptor.kind h = "#text" → value_of h = JsString (adaptor.value h).
Proof. intros H. unfold HTMLDomStrings.value_of. by rewrite bool_decide_true. Qed.

Lemma value_of_tag h v :
  adaptor.kind h ≠ "#text" → include (adaptor.kind h) = Some v →
  value_of h = v.
Proof.
  intros H Hv. unfold HTMLDomStrings.value_of.
  by rewrite bool_decide_false, Hv.
Qed.

Lemma text_of_text h : adaptor.kind h = "#text" → text_of h = adaptor.value h.
Proof. intros H. unfold HTMLDomStrings.text_of. by rewrite value_of_text. Qed.

Lemma entered_container h :
  adaptor.kind h ≠ "#text" → ¬ is_Some (include (adaptor.kind h)) →
  ∀ c, adaptor.firstChild h = Some c →
  negb (truthy (adaptor.getAttribute h "data-MJX"))
  && (processClass (default "" (adaptor.getAttribute h "class"))
      || negb (skipTags (adaptor.kind h))) = true →
  entered (here h) = true.
Proof.
  intros Hk Hi c Hc Hcond.
  unfold HTMLDomStrings.entered, is_container, marked, class_of.
  unfold adaptor.kind, adaptor.getAttribute, adaptor.firstChild in *.
  rewrite !bool_decide_false by done. simpl.
  rewrite bool_decide_false; [exact Hcond|].
  intros Hnil. by rewrite Hnil in Hc.
Qed.

Lemma handled_inv r st h ig p :
  scan_inv r (st, Some h, ig) → sited r p h ig →
  scan_inv r (handled st h ig).
Proof.
  intros (Hcur & Hall & Hstack & _) Hs. simpl in *.
  assert (∀ st', prov_ok r (string_ st') (snodes st') →
                 Forall2 (prov_ok r) (strings st') (nodes st') →
                 stack st' = stack st →
                 scan_inv r (st', adaptor.next h, ig)) as Hnext.
  { intros st' H1 H2 H3. split_inv; simpl; [done|done|by rewrite H3|].
    destruct (adaptor.next h) as [h'|] eqn:Hn; [|done].
    destruct (resumable_next _ _ _ _ _ Hs Hn) as [?|(p' & _ & ?)]; eauto. }
  assert (ig = false → ∃ p, placed r p h false) as Hplaced.
  { intros ->. exists p. apply Hs. }
  unfold handled. repeat case_bool_decide.
  - unfold handleText. simpl. apply Hnext; [|by destruct ig|by destruct ig].
    destruct ig; [done|]. rewrite <- value_of_text by done.
    apply extendString_ok; auto.
  - unfold HTMLDomStrings.handleTag. simpl.
    destruct H0 as [v Hv]. rewrite Hv.
    apply Hnext; [|by destruct ig|by destruct ig].
    destruct ig; [done|]. rewrite <- (value_of_tag h v) by done.
    apply extendString_ok; auto.
  - destruct (pushString_ok r st Hcur Hall) as [Hcur' Hall'].
    unfold HTMLDomStrings.handleContainer.
    destruct (adaptor.firstChild h) as [c|] eqn:Hc;
      [|apply Hnext; auto using stack_pushString].
    destruct (negb _ && _) eqn:Hcond;
      [|apply Hnext; auto using stack_pushString].
    pose proof (entered_container h H H0 c Hc Hcond) as He.
    pose proof (sited_firstChild r p h ig c Hs He Hc) as Hchild.
    assert (Forall (λ e, resumable r e.1 e.2) (stack (pushString st))) as Hst'.
    { by rewrite stack_pushString. }
    destruct (adaptor.next h) as [nx|] eqn:Hn;
      (split; [exact Hcur'|]; split; [exact Hall'|]; split;
       [|right; eexists; exact Hchild]); simpl; [|done].
    constructor; [|done]. simpl. by eapply resumable_next.
Qed.

Lemma resume_inv r s : scan_inv r s → scan_inv r (resume s).
Proof.
  destruct s as [[st node] ig]. intros (Hcur & Hall & Hstack & Hnode).
  unfold resume; simpl in *.
  destruct node as [h|]; [by split_inv|].
  destruct (stack st) as [|[h' ig'] rest] eqn:E; [split_inv; simpl; rewrite ?E; done|].
  destruct (pushString_ok r st Hcur Hall) as [Hcur' Hall'].
  apply Forall_cons in Hstack as [Hh' Hrest].
  split_inv; simpl; [done..|].
  destruct Hh' as [?|(p & _ & ?)]; eauto.
Qed.

(** References are told apart by their positions: no node at a position
    of the subtree of the root is taken for the sibling after the root. *)
Lemma placed_differs r p h ig : placed r p h ig → differs h (adaptor.next r) = true.
Proof.
  intros [Ha _]. unfold differs, adaptor.next.
  destruct (following r) as [|n rest]; [done|].
  apply negb_true_iff, bool_decide_eq_false. rewrite Ha.
  unfold address. simpl. intros Heq.
  assert (length (rev p ++ index r :: path r) = length (S (index r) :: path r))
    as Hlen by (by rewrite Heq).
  rewrite length_app, length_rev in Hlen. simpl in Hlen.
  destruct p as [|i p]; simpl in *; [|lia].
  injection Heq as Heq. lia.
Qed.

Lemma differs_stop h : differs h (Some h) = false.
Proof. unfold differs. by rewrite bool_decide_true. Qed.

Lemma while_inv r fuel st node ig :
  scan_inv r (st, node, ig) →
  scan_inv r (while fuel (adaptor.next r) st node ig).
Proof.
  revert st node ig.
  induction fuel as [|fuel IH]; intros st node ig Hinv; [by destruct node|].
  destruct node as [h|]; [|done]. simpl.
  destruct (differs h (adaptor.next r)) eqn:Hd; [|done].
  destruct Hinv as (Hcur & Hall & Hstack & Hnode). simpl in Hnode.
  destruct Hnode as [Hstop|[p Hs]].
  { rewrite Hstop, differs_stop in Hd. done. }
  assert (scan_inv r (turn st h ig)) as Hturn.
  { rewrite turn_resume. apply resume_inv. eapply handled_inv; [|done].
    split_inv; simpl; eauto. }
  destruct (turn st h ig) as [[st' node'] ig']. by apply IH.
Qed.

Lemma init_inv r : scan_inv r (init, Some r, false).
Proof.
  split_inv; simpl; [apply prov_ok_nil|constructor|constructor|].
  right. exists []. apply sited_root.
Qed.

(** The state of [find] after any number of turns. *)
Lemma scan_inv_turns r fuel :
  scan_inv r (while fuel (adaptor.next r) init (Some r) false).
Proof. apply while_inv, init_inv. Qed.

Lemma find_unfold r :
  find r =
  (strings (pushString (while (turns r) (adaptor.next r) init (Some r) false).1.1),
   nodes (pushString (while (turns r) (adaptor.next r) init (Some r) false).1.1)).
Proof.
  unfold HTMLDomStrings.find.
  by destruct (while _ _ _ _ _) as [[st node] ig].
Qed.

Lemma find_prov_ok r : Forall2 (prov_ok r) (find r).1 (find r).2.
Proof.
  rewrite find_unfold. simpl.
  destruct (scan_inv_turns r (turns r)) as (Hcur & Hall & _).
  by apply pushString_ok.
Qed.

(** *** Recorded lengths

    [find] takes a node for an included tag when [include] has anything for
    its kind, also a member that the [includeTags] object inherits.  Such a
    member is not a string, and the length recorded for it is not the length
    of what is appended.  [own_kinds] holds of a tree in which this does not
    happen: every node is a text node, or has a kind that is an own property
    of [includeTags], or a kind that the object does not inherit either. *)
Fixpoint own_kinds (n : DOMNode) : bool :=
  match n with
  | TextNode _ => true
  | ElementNode k _ cs =>
      (bool_decide (k = "#text") || bool_decide (is_Some (includeTags !! k))
       || bool_decide (prototype !! k = None))
      && forallb own_kinds cs
  end.

Lemma own_kinds_subtree n p m :
  own_kinds n = true → subtree_at n p = Some m → own_kinds m = true.
Proof.
  revert n. induction p as [|i p IH]; intros n Hn; simpl; [by intros [= <-]|].
  destruct (node_children n !! i) as [c|] eqn:Hi; [|done].
  apply IH. destruct n as [v|k a cs]; [done|]. simpl in *.
  apply andb_prop in Hn as [_ Hcs].
  rewrite forallb_forall in Hcs. apply Hcs.
  apply list_elem_of_In. by eapply list_elem_of_lookup_2.
Qed.

Lemma own_kinds_value h :
  own_kinds (here h) = true → value_of h = JsString (text_of h).
Proof.
  intros Hown. unfold HTMLDomStrings.text_of, HTMLDomStrings.value_of.
  case_bool_decide as Hk; [done|].
  unfold adaptor.kind in *. destruct (here h) as [v|k a cs]; [done|].
  simpl in *. apply andb_prop in Hown as [Hown _].
  unfold HTMLDomStrings.include, js_get.
  destruct (includeTags !! k) as [t|] eqn:Hin; [done|].
  repeat (apply orb_prop in Hown as [Hown|Hown]);
    apply bool_decide_eq_true in Hown.
  - done.
  - by destruct Hown.
  - by rewrite Hown.
Qed.

Lemma prov_ok_sum r s ns :
  own_kinds (here r) = true → prov_ok r s ns →
  Forall (λ e, e.2 = Some (length (text_of e.1))) ns
  ∧ sum_list (map (λ e, default 0 e.2) ns) = length s.
Proof.
  intros Hown [-> Hall].
  induction Hall as [|[h n] ns [Hn [p [_ Hp]]] _ [IH1 IH2]]; [done|].
  simpl in *.
  assert (n = Some (length (text_of h))) as ->.
  { rewrite Hn. unfold HTMLDomStrings.length_of.
    rewrite own_kinds_value; [done|].
    eapply own_kinds_subtree; [exact Hown|]. by eapply route_subtree. }
  split; [by constructor|]. simpl. by rewrite length_app, IH2.
Qed.

(** The loop of [find] reaches its exit condition within [turns] turns. *)
Lemma find_finishes r :
  finished (adaptor.next r)
    (while (turns r) (adaptor.next r) init (Some r) false).1.2 = true.
Proof.
  apply while_finishes. unfold pending, turns, handle_size, forest_size.
  simpl. lia.
Qed.

(** In a tree where no kind resolves to an inherited member of the
    [includeTags] object, the provenance invariant holds: [find] reaches the
    end of its loop and returns one provenance list per string, in the same
    order; each string is the texts of the nodes of its list, each entry
    records the length of the text of its node, and the recorded lengths add
    up to the length of the string. *)
Theorem find_lengths_for_own_kinds (r : handle) :
  own_kinds (here r) = true →
  finished (adaptor.next r)
    (while (turns r) (adaptor.next r) init (Some r) false).1.2 = true
  ∧ length (find r).1 = length (find r).2
  ∧ Forall2 (λ s ns,
        s = concat (map (λ e, text_of e.1) ns)
        ∧ Forall (λ e, e.2 = Some (length (text_of e.1))) ns
        ∧ sum_list (map (λ e, default 0 e.2) ns) = length s)
      (find r).1 (find r).2.
Proof.
  intros Hown. split; [apply find_finishes|]. split.
  - eapply Forall2_length, find_prov_ok.
  - eapply Forall2_impl; [apply find_prov_ok|].
    intros s ns Hok. split; [apply Hok|]. by eapply prov_ok_sum.
Qed.

(** *** Flushing *)

Definition nonspace_strings (st : scanner) : Prop :=
  Forall (λ s, match_nonspace s = true) (strings st).

Lemma pushString_nonspace st : nonspace_strings st → nonspace_strings (pushString st).
Proof.
  unfold nonspace_strings, pushString. intros H.
  destruct (match_nonspace (string_ st)) eqn:E; simpl; [|done].
  apply Forall_app. split; [done|]. by constructor.
Qed.

Lemma handled_nonspace st h ig :
  nonspace_strings st → nonspace_strings (handled st h ig).1.1.
Proof.
  intros H. unfold handled. repeat case_bool_decide; simpl.
  - by destruct ig.
  - destruct ig; [done|]. by destruct (include _).
  - apply pushString_nonspace in H.
    unfold HTMLDomStrings.handleContainer.
    destruct (adaptor.firstChild h); [|done].
    destruct (negb _ && _); [|done].
    by destruct (adaptor.next h).
Qed.

Lemma resume_nonspace s : nonspace_strings s.1.1 → nonspace_strings (resume s).1.1.
Proof.
  destruct s as [[st node] ig]. unfold resume; simpl. intros H.
  destruct node; [done|]. destruct (stack st) as [|[h' ig'] rest]; [done|].
  by apply pushString_nonspace in H.
Qed.

Lemma while_nonspace fuel stop st node ig :
  nonspace_strings st → nonspace_strings (while fuel stop st node ig).1.1.
Proof.
  revert st node ig. induction fuel as [|fuel IH]; intros st node ig H;
    [by destruct node|].
  destruct node as [h|]; [|done]. simpl.
  destruct (differs h stop); [|done].
  pose proof (resume_nonspace _ (handled_nonspace st h ig H)) as Ht.
  rewrite <- turn_resume in Ht.
  destruct (turn st h ig) as [[st' node'] ig']. by apply IH.
Qed.

(** C9.  At a flush, a string without a non-whitespace character is not
    added to the results and neither is its provenance list; in every case
    both buffers are reset, so the next string and its provenance start
    from nothing.  Hence no whitespace-only string is returned by [find]. *)
Theorem pushString_discards_whitespace (st : scanner) :
  (match_nonspace (string_ st) = false →
   strings (pushString st) = strings st ∧ nodes (pushString st) = nodes st)
  ∧ (match_nonspace (string_ st) = true →
     strings (pushString st) = strings st ++ [string_ st]
     ∧ nodes (pushString st) = nodes st ++ [snodes st])
  ∧ string_ (pushString st) = [] ∧ snodes (pushString st) = []
  ∧ (∀ h text,
       string_ (extendString (pushString st) h (JsString text)) = text
       ∧ snodes (extendString (pushString st) h (JsString text))
         = [(h, Some (length text))])
  ∧ (∀ r, Forall (λ s, match_nonspace s = true) (find r).1).
Proof.
  unfold pushString.
  destruct (match_nonspace (string_ st)) eqn:E; simpl;
    (split; [done|]; split; [done|]; split; [done|]; split; [done|]; split;
     [done|]); intros r; rewrite find_unfold; simpl;
    apply pushString_nonspace, while_nonspace; constructor.
Qed.

(** *** Nodes marked as created by the engine *)

(** No node strictly above position [p] is marked. *)
Definition unmarked_above (root : DOMNode) (p : list nat) : Prop :=
  ∀ p1 p2 a, p = p1 ++ p2 → p2 ≠ [] → subtree_at root p1 = Some a →
             marked a = false.

(** [h] is a node of the subtree of [r], not below a marked node. *)
Definition outside_marked (r h : handle) : Prop :=
  ∃ p, address h = rev p ++ address r
       ∧ subtree_at (here r) p = Some (here h)
       ∧ unmarked_above (here r) p.

Lemma placed_outside_marked r p h ig : placed r p h ig → outside_marked r h.
Proof.
  intros [Ha Hr]. exists p. split; [done|]. split; [by eapply route_subtree|].
  intros p1 p2 a Hp Hne Hsub.
  eapply entered_unmarked, route_entered; eauto.
Qed.

(** C5, as the code has it.  A container with a truthy [data-MJX] attribute
    is never descended into: [handleContainer] goes on with its next
    sibling; no node visited by [find] lies below such a container; and
    every returned string consists of the texts of nodes that do not lie
    below such a container.  The attribute [data-mjx-error] is not looked
    at: [handleContainer] does with a node that carries it exactly what it
    does with the same node without it. *)
Theorem marked_subtrees_skipped (r : handle) :
  (∀ st h ig,
     truthy (adaptor.getAttribute h "data-MJX") = true →
     handleContainer st h ig = (pushString st, adaptor.next h, ig))
  ∧ (∀ st path i foll ig k a cs msg,
       handleContainer st
         (Handle path i (ElementNode k (<["data-mjx-error" := msg]> a) cs) foll) ig
       = handleContainer st (Handle path i (ElementNode k a cs) foll) ig)
  ∧ (∀ fuel h,
       (while fuel (adaptor.next r) init (Some r) false).1.2 = Some h →
       differs h (adaptor.next r) = true →
       outside_marked r h)
  ∧ Forall2 (λ s ns,
        s = concat (map (λ e, text_of e.1) ns)
        ∧ Forall (λ e, outside_marked r e.1) ns)
      (find r).1 (find r).2.
Proof.
  split; [|split; [|split]].
  - intros st h ig Hm. unfold HTMLDomStrings.handleContainer.
    rewrite Hm. simpl. by destruct (adaptor.firstChild h).
  - intros st path i foll ig k a cs msg.
    unfold HTMLDomStrings.handleContainer, adaptor.getAttribute, adaptor.kind,
      adaptor.firstChild, adaptor.next. simpl.
    by rewrite !lookup_insert_ne.
  - intros fuel h Hnode Hd.
    destruct (scan_inv_turns r fuel) as (_ & _ & _ & Hcur).
    rewrite Hnode in Hcur.
    destruct Hcur as [Hstop|[p [Hp _]]]; [|by eapply placed_outside_marked].
    rewrite Hstop, differs_stop in Hd. done.
  - eapply Forall2_impl; [apply find_prov_ok|].
    intros s ns [Hs Hall]. split; [done|].
    eapply Forall_impl; [exact Hall|].
    intros e [_ [p Hp]]. by eapply placed_outside_marked.
Qed.

(** *** Skipped tags and ignored regions *)

Lemma route_app n p1 p2 ig m ig' :
  route n (p1 ++ p2) ig = Some (m, ig') →
  ∃ a iga, route n p1 ig = Some (a, iga) ∧ route a p2 iga = Some (m, ig').
Proof.
  revert n ig. induction p1 as [|i p1 IH]; intros n ig; simpl; [eauto|].
  destruct (entered n); [|done].
  destruct (node_children n !! i) as [c|]; [|done]. apply IH.
Qed.

Lemma find_entries_placed r :
  Forall (Forall (λ e, ∃ p, placed r p e.1 false)) (find r).2.
Proof.
  pose proof (find_prov_ok r) as H.
  induction H as [|s ns ss nss [_ Hns] _ IH]; constructor; [|done].
  eapply Forall_impl; [exact Hns|]. by intros e [_ He].
Qed.

(** No text is taken from inside a skipped tag: a container above a node
    that [find] records either is not one of the [skipTags] or carries the
    process class; in both cases it has children and no truthy [data-MJX],
    and is neither a text node nor an included tag (nor a node whose kind
    names a member that the [includeTags] object inherits). *)
Theorem recorded_nodes_not_skipped (r : handle) :
  Forall (Forall (λ e,
      ∃ p, address e.1 = rev p ++ address r
           ∧ subtree_at (here r) p = Some (here e.1)
           ∧ ∀ p1 p2 a, p = p1 ++ p2 → p2 ≠ [] → subtree_at (here r) p1 = Some a →
               (skipTags (node_kind a) = true → processClass (class_of a) = true)
               ∧ node_children a ≠ []
               ∧ node_kind a ≠ "#text"
               ∧ includeTags !! node_kind a = None
               ∧ prototype !! node_kind a = None))
    (find r).2.
Proof.
  eapply Forall_impl; [apply find_entries_placed|]. intros ns Hns.
  eapply Forall_impl; [exact Hns|]. intros e [p [Ha Hr]].
  exists p. split; [done|]. split; [by eapply route_subtree|].
  intros p1 p2 a Hp Hne Hsub.
  pose proof (route_entered _ _ _ _ _ _ _ _ Hr Hp Hne Hsub) as He.
  unfold HTMLDomStrings.entered, is_container in He.
  repeat (apply andb_prop in He as [He ?]).
  split; [|split; [|split]].
  - intros Hskip. rewrite Hskip in *. by destruct (processClass (class_of a)).
  - by apply negb_true_iff, bool_decide_eq_false in H1.
  - by apply negb_true_iff, bool_decide_eq_false in He.
  - apply negb_true_iff, bool_decide_eq_false in H2.
    unfold HTMLDomStrings.include, js_get in H2.
    destruct (includeTags !! node_kind a) eqn:E; [destruct H2; by eexists|].
    split; [done|].
    destruct (prototype !! node_kind a) eqn:E'; [destruct H2; by eexists|done].
Qed.

(** No text is taken from an ignored region: at every node that [find]
    records the inherited ignore flag is off.  So the parent of a recorded
    node does not match the ignore class, unless it matches the process
    class; and when it matches neither, the same holds of the position of
    the parent. *)
Theorem recorded_nodes_not_ignored (r : handle) :
  Forall (Forall (λ e,
      ∃ p, address e.1 = rev p ++ address r
           ∧ route (here r) p false = Some (here e.1, false)
           ∧ ∀ q i, p = q ++ [i] →
               ∃ parent ig,
                 route (here r) q false = Some (parent, ig)
                 ∧ (ignoreClass (class_of parent) = true →
                    processClass (class_of parent) = true)
                 ∧ (processClass (class_of parent) = false → ig = false)))
    (find r).2.
Proof.
  eapply Forall_impl; [apply find_entries_placed|]. intros ns Hns.
  eapply Forall_impl; [exact Hns|]. intros e [p [Ha Hr]].
  exists p. split; [done|]. split; [done|].
  intros q i ->. rewrite route_snoc in Hr.
  destruct (route (here r) q false) as [[parent ig]|]; [|done].
  exists parent, ig. split; [done|].
  destruct (entered parent); [|done].
  destruct (node_children parent !! i); [|done].
  injection Hr as _ Hig. unfold HTMLDomStrings.inherit in Hig.
  destruct (processClass (class_of parent)), (ignoreClass (class_of parent)), ig;
    simpl in Hig; try done.
Qed.

(** *** What a provenance list looks like *)

(** [b] is the sibling right after [a]. *)
Definition follows (a b : handle) : Prop := adaptor.next a = Some b.

Fixpoint chain (l : list handle) : Prop :=
  match l with
  | a :: (b :: _) as rest => follows a b ∧ chain rest
  | _ => True
  end.

Lemma chain_snoc l x :
  chain l → (∀ y, last l = Some y → follows y x) → chain (l ++ [x]).
Proof.
  induction l as [|a l IH]; simpl; [done|].
  destruct l as [|b l]; simpl in *.
  - intros _ H. split; [by apply H|done].
  - intros [Hab Hc] H. split; [done|]. apply IH; [done|]. exact H.
Qed.

(** A text node or an included tag. *)
Definition leaf (h : handle) : Prop :=
  adaptor.kind h = "#text" ∨ is_Some (include (adaptor.kind h)).

Definition list_ok (ns : HTMLNodeList) : Prop :=
  ns ≠ [] ∧ Forall (λ e, leaf e.1) ns ∧ chain (map fst ns).

(** The provenance lists found so far are lists of consecutive leaves;
    so is the list under construction, which is empty while ignoring and
    otherwise ends just before the current node. *)
Definition lists_inv (s : scanner * option handle * bool) : Prop :=
  Forall list_ok (nodes s.1.1)
  ∧ length (strings s.1.1) = length (nodes s.1.1)
  ∧ (snodes s.1.1 = [] → string_ s.1.1 = [])
  ∧ Forall (λ e, leaf e.1) (snodes s.1.1)
  ∧ chain (map fst (snodes s.1.1))
  ∧ (snodes s.1.1 ≠ [] → s.2 = false)
  ∧ (∀ y h, last (map fst (snodes s.1.1)) = Some y → s.1.2 = Some h → follows y h).

Lemma match_nonspace_nil : match_nonspace [] = false.
Proof. reflexivity. Qed.

Lemma pushString_lists st node ig :
  lists_inv (st, node, ig) →
  snodes (pushString st) = [] ∧ string_ (pushString st) = []
  ∧ Forall list_ok (nodes (pushString st))
  ∧ length (strings (pushString st)) = length (nodes (pushString st)).
Proof.
  intros (Hall & Hlen & Hnil & Hleaf & Hchain & _). simpl in *.
  unfold pushString. destruct (match_nonspace (string_ st)) eqn:E; simpl;
    [|done].
  split; [done|]. split; [done|]. split.
  - apply Forall_app. split; [done|]. constructor; [|done].
    split; [|done]. intros Hs. rewrite (Hnil Hs) in E. done.
  - rewrite !length_app. simpl. lia.
Qed.

Lemma flushed_lists st node ig :
  snodes st = [] → string_ st = [] → Forall list_ok (nodes st) →
  length (strings st) = length (nodes st) →
  lists_inv (st, node, ig).
Proof.
  intros Hs Hstr Hall Hlen. unfold lists_inv. simpl. rewrite Hs. simpl.
  repeat split; try done.
Qed.

Lemma chain_lookup l i a b :
  chain l → l !! i = Some a → l !! S i = Some b → follows a b.
Proof.
  revert i. induction l as [|x l IH]; intros i; [done|].
  destruct l as [|y l]; [by destruct i|]. intros [Hxy Hc].
  destruct i as [|i]; simpl.
  - by intros [= <-] [= <-].
  - apply IH. exact Hc.
Qed.

Lemma last_snoc_fst (ns : HTMLNodeList) (e : handle * option nat) :
  last (map fst (ns ++ [e])) = Some e.1.
Proof. rewrite map_app. simpl. apply last_snoc. Qed.

Lemma extend_lists st h ig text :
  lists_inv (st, Some h, ig) → leaf h →
  lists_inv (extendString st h text, adaptor.next h, false).
Proof.
  intros (Hall & Hlen & Hnil & Hleaf & Hchain & Hig & Hlast) Hl. simpl in *.
  unfold lists_inv, extendString. simpl.
  split; [done|]. split; [done|]. split; [by destruct (snodes st)|].
  split; [apply Forall_app; split; [done|by constructor]|].
  split; [|split; [done|]].
  - rewrite map_app. simpl. apply chain_snoc; [done|]. intros y Hy. by apply Hlast.
  - intros y h'. rewrite last_snoc_fst. simpl. by intros [= <-] Hn.
Qed.

Lemma skip_lists st h ig :
  lists_inv (st, Some h, ig) → ig = true →
  lists_inv (st, adaptor.next h, ig).
Proof.
  intros (Hall & Hlen & Hnil & Hleaf & Hchain & Hig & Hlast) ->. simpl in *.
  assert (snodes st = []) as Hs.
  { destruct (snodes st) as [|e l] eqn:E; [done|]. by discriminate Hig. }
  unfold lists_inv. simpl. rewrite Hs in *. simpl. repeat split; try done.
Qed.

Lemma handled_lists st h ig :
  lists_inv (st, Some h, ig) → lists_inv (handled st h ig).
Proof.
  intros Hinv. unfold handled. repeat case_bool_decide.
  - unfold handleText. simpl. destruct ig.
    + by apply (skip_lists st h true).
    + apply (extend_lists st h false); [done|by left].
  - unfold HTMLDomStrings.handleTag. simpl. destruct ig.
    + by apply (skip_lists st h true).
    + destruct H0 as [v Hv]. rewrite Hv.
      apply (extend_lists st h false); [done|right; by rewrite Hv].
  - destruct (pushString_lists st _ _ Hinv) as (Hs & Hstr & Hall & Hlen).
    unfold HTMLDomStrings.handleContainer.
    destruct (adaptor.firstChild h); [|by apply flushed_lists].
    destruct (negb _ && _); [|by apply flushed_lists].
    by destruct (adaptor.next h); apply flushed_lists.
Qed.

Lemma resume_lists s : lists_inv s → lists_inv (resume s).
Proof.
  destruct s as [[st node] ig]. intros Hinv. unfold resume. simpl.
  destruct node; [done|]. destruct (stack st) as [|[h' ig'] rest]; [done|].
  destruct (pushString_lists st _ _ Hinv) as (Hs & Hstr & Hall & Hlen).
  by apply flushed_lists.
Qed.

Lemma while_lists fuel stop st node ig :
  lists_inv (st, node, ig) → lists_inv (while fuel stop st node ig).
Proof.
  revert st node ig. induction fuel as [|fuel IH]; intros st node ig H;
    [by destruct node|].
  destruct node as [h|]; [|done]. simpl.
  destruct (differs h stop); [|done].
  pose proof (resume_lists _ (handled_lists st h ig H)) as Ht.
  rewrite <- turn_resume in Ht.
  destruct (turn st h ig) as [[st' node'] ig']. by apply IH.
Qed.

Lemma find_lists r : Forall list_ok (find r).2.
Proof.
  rewrite find_unfold. simpl.
  pose proof (while_lists (turns r) (adaptor.next r) init (Some r) false) as H.
  destruct (while _ _ _ _ _) as [[st node] ig].
  eapply pushString_lists, H. by apply flushed_lists.
Qed.

(** An [HTMLNodeList] is a list of consecutive nodes: every provenance
    list that [find] returns is not empty; it holds only text nodes and
    nodes that [find] takes for included tags, those for whose kind
    [include] is not [undefined] (an own property of [includeTags] or a
    member that the object inherits), never a node that [find] handles as a
    container; and each of its nodes is the next sibling of the one before
    it. *)
Theorem provenance_consecutive_leaves (r : handle) :
  Forall (λ ns : HTMLNodeList,
      ns ≠ []
      ∧ Forall (λ e, adaptor.kind e.1 = "#text"
                     ∨ is_Some (include (adaptor.kind e.1))) ns
      ∧ ∀ i a b, ns !! i = Some a → ns !! S i = Some b →
          adaptor.next a.1 = Some b.1)
    (find r).2.
Proof.
  eapply Forall_impl; [apply find_lists|].
  intros ns (Hne & Hleaf & Hchain). split; [done|]. split; [done|].
  intros i a b Ha Hb.
  apply (chain_lookup (map fst ns) i); [done|..]; rewrite list_lookup_fmap.
  - by rewrite Ha.
  - by rewrite Hb.
Qed.

(** *** The loop against a recursive descent *)

Section Siblings.

Context (scan_one : DOMNode → nat → list DOMNode → scanner → scanner).

(** The nodes [ns] in turn, the first of them being child number [j]; each
    is handed the siblings after it. *)
Fixpoint scan_list (ns : list DOMNode) (j : nat) (st : scanner) : scanner :=
  match ns with
  | [] => st
  | c :: rest => scan_list rest (S j) (scan_one c j rest st)
  end.

End Siblings.

(** What the scan does with one node and everything below it, written as a
    recursion on the tree with the three-way test of [find]: a text node is
    handed to [handleText]; a node for whose kind [include] is not
    [undefined] is handed to [handleTag]; any other node is a container: it
    flushes the string, and when it is descended into, its children are
    scanned with the inherited flag and the string is flushed again. *)
Fixpoint scan_node (n : DOMNode) (path : list nat) (i : nat) (foll : list DOMNode)
    (ig : bool) (st : scanner) {struct n} : scanner :=
  if bool_decide (node_kind n = "#text")
  then (handleText st (Handle path i n foll) ig).1
  else if bool_decide (is_Some (include (node_kind n)))
  then (handleTag st (Handle path i n foll) ig).1
  else
    match n with
    | TextNode _ => pushString st
    | ElementNode _ _ cs =>
        if entered n
        then pushString
               (scan_list (λ c j rest st', scan_node c (i :: path) j rest (inherit n ig) st')
                          cs 0 (pushString st))
        else pushString st
    end.

Definition scan_siblings (path : list nat) (ig : bool)
    (ns : list DOMNode) (j : nat) (st : scanner) : scanner :=
  scan_list (λ c j rest st', scan_node c path j rest ig st') ns j st.

Definition find_recursive (r : handle) : list (list N) * list HTMLNodeList :=
  let st := pushString (scan_node (here r) (path r) (index r) (following r) false init) in
  (strings st, nodes st).

Fixpoint DOMNode_nested_ind (P : DOMNode → Prop)
    (Htext : ∀ v, P (TextNode v))
    (Helement : ∀ k a cs, Forall P cs → P (ElementNode k a cs))
    (n : DOMNode) {struct n} : P n :=
  match n with
  | TextNode v => Htext v
  | ElementNode k a cs =>
      Helement k a cs
        ((fix all (l : list DOMNode) : Forall P l :=
            match l with
            | [] => @List.Forall_nil _ P
            | c :: l' =>
                @List.Forall_cons _ P c l'
                  (DOMNode_nested_ind P Htext Helement c) (all l')
            end) cs)
  end.

Lemma pushString_idem st : pushString (pushString st) = pushString st.
Proof. unfold pushString. by destruct (match_nonspace (string_ st)). Qed.

Lemma pushString_stack_set st s :
  pushString (stack_set st s) = stack_set (pushString st) s.
Proof. unfold pushString, stack_set. simpl. by destruct (match_nonspace _). Qed.

Lemma stack_set_set st s s' : stack_set (stack_set st s) s' = stack_set st s'.
Proof. reflexivity. Qed.

Lemma stack_set_same st : stack_set st (stack st) = st.
Proof. by destruct st. Qed.

Lemma scan_list_stack_set scan_one ns :
  Forall (λ c, ∀ j rest st s,
            scan_one c j rest (stack_set st s) = stack_set (scan_one c j rest st) s) ns →
  ∀ j st s, scan_list scan_one ns j (stack_set st s)
            = stack_set (scan_list scan_one ns j st) s.
Proof.
  induction 1 as [|c ns Hc _ IH]; intros j st s; simpl; [done|].
  by rewrite Hc, IH.
Qed.

(** The recursion does not look at the stack and leaves it alone. *)
Lemma scan_node_stack_set n :
  ∀ path i foll ig st s,
    scan_node n path i foll ig (stack_set st s)
    = stack_set (scan_node n path i foll ig st) s.
Proof.
  induction n as [v|k a cs IH] using DOMNode_nested_ind;
    intros path i foll ig st s.
  - simpl. by destruct ig.
  - cbn [scan_node]. repeat case_bool_decide.
    + unfold handleText. simpl. by destruct ig.
    + unfold HTMLDomStrings.handleTag. simpl. destruct ig; [done|].
      by destruct (include _).
    + destruct (entered (ElementNode k a cs)); [|apply pushString_stack_set].
      rewrite pushString_stack_set, scan_list_stack_set, pushString_stack_set;
        [done|].
      eapply Forall_impl; [exact IH|]. intros c Hc j rest st' s'. apply Hc.
Qed.

Lemma scan_siblings_stack_set path ig ns j st s :
  scan_siblings path ig ns j (stack_set st s)
  = stack_set (scan_siblings path ig ns j st) s.
Proof.
  unfold scan_siblings. apply scan_list_stack_set, Forall_forall.
  intros c _ j' rest st' s'. apply scan_node_stack_set.
Qed.

Lemma scan_siblings_stack path ig ns j st :
  stack (scan_siblings path ig ns j st) = stack st.
Proof.
  rewrite <- (stack_set_same st) at 1. by rewrite scan_siblings_stack_set.
Qed.

Lemma scan_node_stack n path i foll ig st :
  stack (scan_node n path i foll ig st) = stack st.
Proof.
  rewrite <- (stack_set_same st) at 1. by rewrite scan_node_stack_set.
Qed.

Lemma handle_eta h : Handle (path h) (index h) (here h) (following h) = h.
Proof. by destruct h. Qed.

(** A node that is not descended into is done in one turn. *)
Lemma handled_not_entered st h ig :
  entered (here h) = false →
  handled st h ig
  = (scan_node (here h) (path h) (index h) (following h) ig st, adaptor.next h, ig).
Proof.
  intros He. unfold handled, adaptor.kind.
  destruct (here h) as [v|k a cs] eqn:Hn.
  - simpl. rewrite <- Hn, handle_eta. reflexivity.
  - cbn [scan_node]. rewrite <- Hn, handle_eta, Hn. rewrite He.
    repeat case_bool_decide; [done..|].
    unfold HTMLDomStrings.handleContainer.
    destruct (adaptor.firstChild h) as [c|] eqn:Hc; [|done].
    destruct (negb _ && _) eqn:Hcond; [|done].
    assert (entered (here h) = true) as Hent.
    { apply (entered_container h) with c; [..|done|done];
        unfold adaptor.kind; by rewrite Hn. }
    rewrite Hn, He in Hent. done.
Qed.

(** A container that is descended into: the first turn moves to its first
    child, and what is left of the container is its children. *)
Lemma handled_entered st h ig :
  entered (here h) = true →
  ∃ c cs,
    node_children (here h) = c :: cs
    ∧ handled st h ig
      = (match adaptor.next h with
         | Some nx => stack_push (pushString st) (nx, ig)
         | None => pushString st
         end,
         Some (Handle (index h :: path h) 0 c cs), inherit (here h) ig)
    ∧ scan_node (here h) (path h) (index h) (following h) ig st
      = pushString (scan_siblings (index h :: path h) (inherit (here h) ig)
                      (c :: cs) 0 (pushString st)).
Proof.
  intros He. pose proof He as He'.
  unfold HTMLDomStrings.entered, is_container in He'.
  repeat (apply andb_prop in He' as [He' ?]).
  apply negb_true_iff, bool_decide_eq_false in He', H2, H1.
  destruct (node_children (here h)) as [|c cs] eqn:Hcs; [done|].
  exists c, cs. split; [done|]. split.
  - unfold handled, adaptor.kind. rewrite !bool_decide_false by done.
    unfold HTMLDomStrings.handleContainer, adaptor.firstChild,
      adaptor.getAttribute, adaptor.kind. rewrite Hcs.
    unfold marked, class_of in *. rewrite H0, H. reflexivity.
  - destruct (here h) as [v|k a cs'] eqn:Hn; [done|]. simpl in Hcs. subst cs'.
    cbn [scan_node]. rewrite !bool_decide_false by done.
    rewrite He. reflexivity.
Qed.

Lemma while_stable fuel stop st node ig :
  finished stop node = true → while fuel stop st node ig = (st, node, ig).
Proof.
  destruct fuel, node as [h|]; simpl; try done.
  intros H. apply negb_true_iff in H. by rewrite H.
Qed.

Lemma while_add a b stop st node ig :
  while (a + b) stop st node ig
  = while b stop (while a stop st node ig).1.1 (while a stop st node ig).1.2
      (while a stop st node ig).2.
Proof.
  revert st node ig. induction a as [|a IH]; intros st node ig; [done|].
  destruct node as [h|]; simpl.
  - destruct (differs h stop) eqn:Hd.
    + destruct (turn st h ig) as [[st' node'] ig']. apply IH.
    + simpl. rewrite while_stable; [done|]. simpl. by rewrite Hd.
  - by rewrite while_stable.
Qed.

Lemma while_zero stop (s : scanner * option handle * bool) :
  while 0 stop s.1.1 s.1.2 s.2 = s.
Proof. destruct s as [[st node] ig]. by destruct node. Qed.

Lemma while_step k stop st h ig :
  differs h stop = true →
  while (S k) stop st (Some h) ig
  = while k stop (turn st h ig).1.1 (turn st h ig).1.2 (turn st h ig).2.
Proof.
  intros Hd. simpl. rewrite Hd. by destruct (turn st h ig) as [[st' node'] ig'].
Qed.

(** Two runs that both reach the end of the loop end in the same state. *)
Lemma while_finished_eq a b stop st node ig :
  finished stop (while a stop st node ig).1.2 = true →
  finished stop (while b stop st node ig).1.2 = true →
  while a stop st node ig = while b stop st node ig.
Proof.
  intros Ha Hb. destruct (decide (a ≤ b)) as [Hle|Hgt].
  - replace b with (a + (b - a)) by lia. rewrite while_add.
    rewrite (while_stable (b - a)) by done.
    by destruct (while a stop st node ig) as [[? ?] ?].
  - replace a with (b + (a - b)) by lia. rewrite while_add.
    rewrite (while_stable (a - b)) by done.
    by destruct (while b stop st node ig) as [[? ?] ?].
Qed.

(** A node below the root is not the node where the scan stops. *)
Lemma deeper_differs r h :
  length (path r) < length (path h) → differs h (adaptor.next r) = true.
Proof.
  intros Hlen. unfold differs, adaptor.next.
  destruct (following r) as [|n rest]; [done|].
  apply negb_true_iff, bool_decide_eq_false. unfold address. simpl.
  intros [= _ Hp]. rewrite Hp in Hlen. lia.
Qed.

(** The state in which the loop leaves a list of siblings, [F] being the
    scanner that the recursion computes for them: it resumes from the
    stack, or ends with nothing left to flush but what [F] holds. *)
Definition ends (stk : list (handle * bool)) (F : scanner)
    (s : scanner * option handle * bool) : Prop :=
  match stk with
  | [] => s.1.2 = None ∧ stack s.1.1 = [] ∧ pushString s.1.1 = pushString F
  | (h', ig') :: rest => s = (stack_set (pushString F) rest, Some h', ig')
  end.

Lemma ends_leaf st ig : ends (stack st) st (resume (st, None, ig)).
Proof.
  unfold ends, resume. simpl.
  destruct (stack st) as [|[h' ig'] rest] eqn:E; simpl; [by rewrite E|done].
Qed.

Lemma ends_pushString stk F s : ends stk F s → ends stk (pushString F) s.
Proof.
  unfold ends. destruct stk as [|[h' ig'] rest]; rewrite pushString_idem; done.
Qed.

Lemma scan_siblings_nil path ig j st : scan_siblings path ig [] j st = st.
Proof. reflexivity. Qed.

Lemma ends_cons stk h' ig' rest F s :
  ends stk F s → stk = (h', ig') :: rest →
  s = (stack_set (pushString F) rest, Some h', ig').
Proof. by intros H ->. Qed.

Lemma next_siblings h nx :
  adaptor.next h = Some nx →
  here nx :: following nx = following h
  ∧ path nx = path h ∧ index nx = S (index h)
  ∧ handle_size nx < handle_size h.
Proof.
  pose proof (node_size_pos (here h)).
  unfold adaptor.next, handle_size.
  destruct (following h) as [|n rest]; [done|]. intros [= <-]. simpl.
  repeat split. unfold forest_size. simpl. lia.
Qed.

Lemma next_none h : adaptor.next h = None → following h = [].
Proof. unfold adaptor.next. by destruct (following h). Qed.

(** The loop, started at a node below the root, scans that node and the
    siblings after it as the recursion does, and then resumes from the
    stack. *)
Lemma run_siblings r n :
  ∀ h ig st,
    handle_size h ≤ n → length (path r) < length (path h) →
    ∃ k, ends (stack st)
           (scan_siblings (path h) ig (here h :: following h) (index h) st)
           (while k (adaptor.next r) st (Some h) ig).
Proof.
  induction n as [|n IH]; intros h ig st Hsize Hdeep.
  { pose proof (node_size_pos (here h)). unfold handle_size in Hsize. lia. }
  pose proof (deeper_differs r h Hdeep) as Hd.
  assert (scan_siblings (path h) ig (here h :: following h) (index h) st
          = scan_siblings (path h) ig (following h) (S (index h))
              (scan_node (here h) (path h) (index h) (following h) ig st)) as Hcons
    by reflexivity.
  destruct (entered (here h)) eqn:He.
  - destruct (handled_entered st h ig He) as (c & cs & Hcs & Hturn & Hscan).
    set (hc := Handle (index h :: path h) 0 c cs) in *.
    assert (handle_size hc < handle_size h) as Hlt.
    { unfold handle_size at 2. subst hc. unfold handle_size. simpl.
      destruct (here h) as [v|k' a cs']; simpl in *; [done|]. subst cs'.
      unfold forest_size. simpl. lia. }
    destruct (adaptor.next h) as [nx|] eqn:Hn.
    + destruct (next_siblings h nx Hn) as (Hfoll & Hpath & Hidx & Hnx).
      destruct (IH hc (inherit (here h) ig) (stack_push (pushString st) (nx, ig)))
        as [kc Hc]; [lia|simpl; lia|].
      apply (ends_cons _ nx ig (stack st)) in Hc;
        [|simpl; by rewrite stack_pushString].
      set (st2 := stack_set
                    (pushString
                       (scan_siblings (path hc) (inherit (here h) ig)
                          (here hc :: following hc) (index hc)
                          (stack_push (pushString st) (nx, ig))))
                    (stack st)) in *.
      assert (st2 = scan_node (here h) (path h) (index h) (following h) ig st)
        as Hst2.
      { subst st2. rewrite Hscan.
        change (stack_push (pushString st) (nx, ig))
          with (stack_set (pushString st) ((nx, ig) :: stack (pushString st))).
        rewrite scan_siblings_stack_set, pushString_stack_set, stack_set_set.
        rewrite <- (stack_pushString st), <- (scan_siblings_stack
          (index h :: path h) (inherit (here h) ig) (c :: cs) 0 (pushString st)).
        rewrite <- (stack_pushString (scan_siblings _ _ _ _ _)).
        apply stack_set_same. }
      destruct (IH nx ig st2) as [k2 H2]; [lia|by rewrite Hpath|].
      exists (S (kc + k2)).
      rewrite while_step, turn_resume, Hturn by done. cbn [fst snd resume].
      rewrite while_add, Hc. cbn [fst snd]. fold st2.
      rewrite Hcons, <- Hst2, <- Hfoll, <- Hidx, <- Hpath.
      replace (stack st) with (stack st2); [exact H2|].
      subst st2. reflexivity.
    + destruct (IH hc (inherit (here h) ig) (pushString st))
        as [kc Hc]; [lia|simpl; lia|].
      rewrite stack_pushString in Hc.
      exists (S kc).
      rewrite while_step, turn_resume, Hturn by done. cbn [fst snd resume].
      rewrite Hcons, Hscan, (next_none h Hn), scan_siblings_nil.
      by apply ends_pushString.
  - pose proof (handled_not_entered st h ig He) as Hturn.
    set (st1 := scan_node (here h) (path h) (index h) (following h) ig st) in *.
    assert (stack st1 = stack st) as Hstack by apply scan_node_stack.
    destruct (adaptor.next h) as [nx|] eqn:Hn.
    + destruct (next_siblings h nx Hn) as (Hfoll & Hpath & Hidx & Hnx).
      destruct (IH nx ig st1) as [k1 H1]; [lia|by rewrite Hpath|].
      exists (S k1).
      rewrite while_step, turn_resume, Hturn by done. cbn [fst snd resume].
      rewrite Hcons, <- Hfoll, <- Hidx, <- Hpath, <- Hstack. exact H1.
    + exists 1.
      rewrite while_step, turn_resume, Hturn by done.
      rewrite Hcons, (next_none h Hn), scan_siblings_nil, while_zero.
      rewrite <- Hstack. apply ends_leaf.
Qed.

Lemma finished_stop stop : finished stop stop = true.
Proof. destruct stop as [s|]; [|done]. unfold finished. by rewrite differs_stop. Qed.

Lemma find_as_recursion (r : handle) : find r = find_recursive r.
Proof.
  rewrite find_unfold. unfold find_recursive.
  assert (differs r (adaptor.next r) = true) as Hd.
  { apply (placed_differs r [] r false). apply sited_root. }
  enough (∃ k,
      finished (adaptor.next r)
        (while k (adaptor.next r) init (Some r) false).1.2 = true
      ∧ pushString (while k (adaptor.next r) init (Some r) false).1.1
        = pushString (scan_node (here r) (path r) (index r) (following r)
                        false init)) as (k & Hk & Heq).
  { rewrite (while_finished_eq (turns r) k); [by rewrite Heq| |done].
    apply while_finishes. unfold pending, turns, handle_size, forest_size.
    simpl. lia. }
  remember (adaptor.next r) as stop eqn:Hstop.
  destruct (entered (here r)) eqn:He.
  - destruct (handled_entered init r false He) as (c & cs & Hcs & Hturn & Hscan).
    rewrite <- Hstop in Hturn.
    set (hc := Handle (index r :: path r) 0 c cs) in *.
    destruct stop as [nx|].
    + destruct (run_siblings r (handle_size hc) hc (inherit (here r) false)
                  (stack_push (pushString init) (nx, false)))
        as [kc Hc]; [done|simpl; lia|].
      rewrite <- Hstop in Hc.
      apply (ends_cons _ nx false []) in Hc; [|done].
      exists (S kc).
      rewrite while_step, turn_resume, Hturn by done. cbn [fst snd resume].
      rewrite Hc. cbn [fst snd]. split; [by rewrite finished_stop|].
      rewrite Hscan.
      change (stack_push (pushString init) (nx, false))
        with (stack_set (pushString init) [(nx, false)]).
      rewrite scan_siblings_stack_set, !pushString_stack_set, stack_set_set.
      set (Y := scan_siblings _ _ _ _ _).
      transitivity (pushString Y); [|by rewrite pushString_idem].
      rewrite pushString_idem. rewrite <- (stack_set_same (pushString Y)) at 2.
      by rewrite stack_pushString; unfold Y; rewrite scan_siblings_stack.
    + destruct (run_siblings r (handle_size hc) hc (inherit (here r) false)
                  (pushString init))
        as [kc Hc]; [done|simpl; lia|].
      rewrite <- Hstop in Hc. destruct Hc as (Hnode & Hstack & Hpush).
      exists (S kc).
      rewrite while_step, turn_resume, Hturn by done. cbn [fst snd resume].
      split; [by rewrite Hnode|].
      rewrite Hpush, Hscan. by rewrite pushString_idem.
  - pose proof (handled_not_entered init r false He) as Hturn.
    rewrite <- Hstop in Hturn.
    exists 1.
    rewrite while_step, turn_resume, Hturn by done.
    assert (resume (scan_node (here r) (path r) (index r) (following r) false init,
                    stop, false)
            = (scan_node (here r) (path r) (index r) (following r) false init,
               stop, false)) as ->.
    { unfold resume. cbn [fst snd]. rewrite scan_node_stack. simpl.
      by destruct stop. }
    rewrite while_zero. split; [apply finished_stop|done].
Qed.

(** *** The ignore flag *)

(** The loop, at a container that is descended into and has a next sibling:
    once the subtree is exhausted the loop is at that sibling, with the
    ignore flag it had at the container, and the scanner is the one the
    recursion computes for the container. *)
Lemma run_container r h ig st nx :
  entered (here h) = true → adaptor.next h = Some nx →
  differs h (adaptor.next r) = true → length (path r) ≤ length (path h) →
  ∃ k, while k (adaptor.next r) st (Some h) ig
       = (scan_node (here h) (path h) (index h) (following h) ig st, Some nx, ig).
Proof.
  intros He Hn Hd Hdeep.
  destruct (handled_entered st h ig He) as (c & cs & Hcs & Hturn & Hscan).
  rewrite Hn in Hturn.
  set (hc := Handle (index h :: path h) 0 c cs) in *.
  destruct (run_siblings r (handle_size hc) hc (inherit (here h) ig)
              (stack_push (pushString st) (nx, ig)))
    as [kc Hc]; [done|simpl; lia|].
  apply (ends_cons _ nx ig (stack st)) in Hc;
    [|simpl; by rewrite stack_pushString].
  exists (S kc).
  rewrite while_step, turn_resume, Hturn by done. cbn [fst snd resume].
  rewrite Hc. f_equal. f_equal. rewrite Hscan.
  change (stack_push (pushString st) (nx, ig))
    with (stack_set (pushString st) ((nx, ig) :: stack (pushString st))).
  rewrite scan_siblings_stack_set, pushString_stack_set, stack_set_set.
  rewrite <- (stack_pushString st), <- (scan_siblings_stack
    (index h :: path h) (inherit (here h) ig) (c :: cs) 0 (pushString st)).
  rewrite <- (stack_pushString (scan_siblings _ _ _ _ _)).
  apply stack_set_same.
Qed.

(** C4.  When [handleContainer] descends into a container, the new ignore
    flag is (ignore OR class matches ignore-class) AND NOT (class matches
    process-class): a process-class match turns ignoring off, and without a
    match the flag is passed on unchanged; the next sibling, if there is
    one, is pushed on the stack together with the current flag.  At every
    turn of [find], also after resuming from the stack, the ignore flag is
    the one the current node inherits in this way from the containers above
    it, and every flag kept on the stack is the inherited flag of the node
    kept with it.  When the subtree of a container that was descended into
    is exhausted, the loop goes on at the next sibling of the container
    with the flag that was in force at the container, and with the stack as
    it was before the container. *)
Theorem ignore_flag_inherited (r : handle) :
  (∀ st h ig c,
     let cname := default "" (adaptor.getAttribute h "class") in
     adaptor.firstChild h = Some c →
     truthy (adaptor.getAttribute h "data-MJX") = false →
     processClass cname || negb (skipTags (adaptor.kind h)) = true →
     (handleContainer st h ig).1.2 = Some c
     ∧ (handleContainer st h ig).2
       = (ig || ignoreClass cname) && negb (processClass cname)
     ∧ (processClass cname = true → (handleContainer st h ig).2 = false)
     ∧ (ignoreClass cname = false → processClass cname = false →
        (handleContainer st h ig).2 = ig)
     ∧ stack (handleContainer st h ig).1.1
       = match adaptor.next h with
         | Some nx => (nx, ig) :: stack st
         | None => stack st
         end)
  ∧ (∀ fuel h,
       let s := while fuel (adaptor.next r) init (Some r) false in
       s.1.2 = Some h → differs h (adaptor.next r) = true →
       ∃ p, placed r p h s.2)
  ∧ (∀ fuel e,
       let s := while fuel (adaptor.next r) init (Some r) false in
       e ∈ stack s.1.1 →
       adaptor.next r = Some e.1 ∨ ∃ p, placed r p e.1 e.2)
  ∧ (∀ st h ig nx,
       entered (here h) = true → adaptor.next h = Some nx →
       differs h (adaptor.next r) = true → length (path r) ≤ length (path h) →
       ∃ k st',
         while k (adaptor.next r) st (Some h) ig = (st', Some nx, ig)
         ∧ stack st' = stack st)
  ∧ (∀ st h ig nx ig' rest,
       adaptor.kind h = "#text" → adaptor.next h = None →
       stack st = (nx, ig') :: rest →
       turn st h ig
       = (stack_set (pushString (handleText st h ig).1) rest, Some nx, ig')).
Proof.
  split; [|split; [|split; [|split]]].
  - intros st h ig c cname Hc Hm Hp.
    unfold HTMLDomStrings.handleContainer. fold cname.
    rewrite Hc, Hm, Hp. simpl.
    split; [by destruct (adaptor.next h)|]. split; [done|]. split; [|split].
    + intros ->. by rewrite andb_false_r.
    + intros -> ->. simpl. by rewrite orb_false_r, andb_true_r.
    + destruct (adaptor.next h); simpl; by rewrite stack_pushString.
  - intros fuel h s Hnode Hd.
    destruct (scan_inv_turns r fuel) as (_ & _ & _ & Hcur).
    fold s in Hcur. rewrite Hnode in Hcur.
    destruct Hcur as [Hstop|[p [Hp _]]]; [|by exists p].
    rewrite Hstop, differs_stop in Hd. done.
  - intros fuel e s He.
    destruct (scan_inv_turns r fuel) as (_ & _ & Hstack & _).
    fold s in Hstack. rewrite Forall_forall in Hstack.
    destruct (Hstack e He) as [?|(p & _ & [Hp _])]; [by left|right; by exists p].
  - intros st h ig nx He Hn Hd Hdeep.
    destruct (run_container r h ig st nx He Hn Hd Hdeep) as [k Hk].
    exists k, (scan_node (here h) (path h) (index h) (following h) ig st).
    split; [done|apply scan_node_stack].
  - intros st h ig nx ig' rest Hk Hn Hstack.
    rewrite turn_resume. unfold handled, resume.
    rewrite bool_decide_true by done. cbn [fst snd].
    rewrite stack_handleText, Hstack.
    unfold handleText at 1. cbn [snd]. by rewrite Hn.
Qed.

(** The explicit stack is a faithful replacement for recursion: what [find]
    returns for a root is what the recursive descent computes for the root
    and everything below it, flushed once more; and the loop reaches its end
    within the number of turns that [find] allows it. *)
Theorem find_is_recursive_descent (r : handle) :
  find r = find_recursive r
  ∧ finished (adaptor.next r)
      (while (turns r) (adaptor.next r) init (Some r) false).1.2 = true.
Proof.
  split; [apply find_as_recursion|].
  apply while_finishes. unfold pending, turns, handle_size, forest_size.
  simpl. lia.
Qed.

(** *** Roots and children that are not descended into *)

Local Abbreviation container := (is_container includeTags prototype).

(** The references to the nodes [ns], the first being child number [j]. *)
Fixpoint child_handles (path : list nat) (j : nat) (ns : list DOMNode) : list handle :=
  match ns with
  | [] => []
  | c :: rest => Handle path j c rest :: child_handles path (S j) rest
  end.

Lemma scan_leaf c path j rest st :
  container c = false →
  scan_node c path j rest false st
  = extendString st (Handle path j c rest) (value_of (Handle path j c rest)).
Proof.
  unfold is_container, HTMLDomStrings.value_of, adaptor.kind, adaptor.value.
  intros Hc. destruct c as [v|k a cs]; [done|].
  cbn [scan_node]. simpl in *. repeat case_bool_decide; try done.
  unfold HTMLDomStrings.handleTag, adaptor.kind. simpl.
  destruct (include k) as [t|] eqn:Hk; [done|]. by destruct H0.
Qed.

Lemma scan_leaves path ns :
  Forall (λ c, container c = false) ns →
  ∀ j st,
    scan_siblings path false ns j st
    = Scanner (strings st)
        (string_ st ++ concat (map text_of (child_handles path j ns)))
        (snodes st
         ++ map (λ h, (h, length_of h)) (child_handles path j ns))
        (nodes st) (stack st).
Proof.
  induction 1 as [|c ns Hc _ IH]; intros j st.
  - simpl. rewrite !app_nil_r. by destruct st.
  - change (scan_siblings path false (c :: ns) j st)
      with (scan_siblings path false ns (S j) (scan_node c path j ns false st)).
    rewrite IH, scan_leaf by done. simpl. by rewrite <- !app_assoc.
Qed.

(** Edge cases of [find].  A root that is a text node gives its text as the
    only string, with the root as its provenance, or nothing when the text
    is whitespace.  A root that [find] handles as a container (not a text
    node, and [include] has nothing for its kind) and that is not descended
    into (it has no child, carries a truthy [data-MJX], or is a skipped tag
    without the process class) gives nothing.  A root that is descended
    into, is not in an ignored region, and has only children that [find]
    does not handle as containers gives what these children add, merged
    into one string, in order, with one provenance entry per child that
    holds the length read off what was added; nothing when that string is
    whitespace. *)
Theorem find_edge_cases (r : handle) :
  (∀ v, here r = TextNode v →
        find r = if match_nonspace v then ([v], [[(r, Some (length v))]])
                 else ([], []))
  ∧ (container (here r) = true → entered (here r) = false →
     find r = ([], []))
  ∧ (entered (here r) = true → inherit (here r) false = false →
     Forall (λ c, container c = false) (node_children (here r)) →
     let hs := child_handles (index r :: path r) 0 (node_children (here r)) in
     find r = if match_nonspace (concat (map text_of hs))
              then ([concat (map text_of hs)],
                    [map (λ h, (h, length_of h)) hs])
              else ([], [])).
Proof.
  rewrite find_as_recursion. unfold find_recursive.
  split; [|split].
  - intros v Hv. rewrite Hv. simpl. rewrite <- Hv, handle_eta.
    unfold adaptor.value. rewrite Hv. unfold pushString. simpl.
    by destruct (match_nonspace v).
  - intros Hc He.
    destruct (here r) as [v|k a cs] eqn:Hn; [done|].
    unfold is_container in Hc. apply andb_prop in Hc as [H1 H2].
    apply negb_true_iff, bool_decide_eq_false in H1, H2.
    cbn [scan_node]. rewrite !bool_decide_false by done. by rewrite He.
  - intros He Hig Hleaves.
    destruct (handled_entered init r false He) as (c & cs & Hcs & _ & ->).
    rewrite Hcs in *. rewrite Hig, scan_leaves by done.
    rewrite pushString_idem. unfold pushString. simpl.
    by destruct (match_nonspace _).
Qed.

End ScannerFacts.

(** *** The scanner on sample documents *)

Module ScannerSample.

Import HTMLDomStrings.

Definition with_class (cname : string) : gmap string string := <["class" := cname]> ∅.

(** [<div>a<span class="tex2jax_ignore">skip<b class="x tex2jax_process">in</b>skip2</span>
    <br>world<span data-MJX="1">out</span>   </div>after] *)
Definition sample : DOMNode :=
  ElementNode "div" ∅
    [ TextNode (js "a");
      ElementNode "span" (with_class "tex2jax_ignore")
        [ TextNode (js "skip");
          ElementNode "b" (with_class "x tex2jax_process") [TextNode (js "in")];
          TextNode (js "skip2") ];
      ElementNode "br" ∅ [];
      TextNode (js "world");
      ElementNode "span" (<["data-MJX" := "1"]> ∅) [TextNode (js "out")];
      TextNode (js "   ") ].

Definition sample_root : handle := Handle [] 0 sample [TextNode (js "after")].

Definition sample_inner : handle := Handle [1; 1; 0] 0 (TextNode (js "in")) [].

Definition sample_marked : handle :=
  Handle [0] 4 (ElementNode "span" (<["data-MJX" := "1"]> ∅) [TextNode (js "out")])
         [TextNode (js "   ")].

Definition sample_state (fuel : nat) : scanner * option handle * bool :=
  while default_skipTags default_ignoreClass default_processClass default_includeTags
    Object_prototype fuel (adaptor.next sample_root) init (Some sample_root) false.

(** A scanner holding a whitespace-only string at a flush. *)
Definition sample_flush : scanner :=
  Scanner [js "a"] (js "   ") [(sample_inner, Some 3)] [[(sample_root, Some 1)]] [].

(** The ignored span of [sample] and the [br] after it. *)
Definition sample_span : handle :=
  Handle [0] 1
    (ElementNode "span" (with_class "tex2jax_ignore")
       [ TextNode (js "skip");
         ElementNode "b" (with_class "x tex2jax_process") [TextNode (js "in")];
         TextNode (js "skip2") ])
    [ ElementNode "br" ∅ [];
      TextNode (js "world");
      ElementNode "span" (<["data-MJX" := "1"]> ∅) [TextNode (js "out")];
      TextNode (js "   ") ].

Definition sample_br : handle :=
  Handle [0] 2 (ElementNode "br" ∅ [])
    [ TextNode (js "world");
      ElementNode "span" (<["data-MJX" := "1"]> ∅) [TextNode (js "out")];
      TextNode (js "   ") ].

(** [<div>a<constructor>inner</constructor>b</div>] *)
Definition constructor_sample : DOMNode :=
  ElementNode "div" ∅
    [ TextNode (js "a");
      ElementNode "constructor" ∅ [TextNode (js "inner")];
      TextNode (js "b") ].

Definition constructor_root : handle := Handle [] 0 constructor_sample [].

(** The node that [typesetError] puts into the document for an error with
    message [boom]. *)
Definition error_span : DOMNode :=
  adaptor.node "span" (<["data-mjx-error" := "boom"]> ∅)
    [adaptor.text "Math output error"].

Definition error_root : handle := Handle [] 0 error_span [].

Definition error_child : handle := Handle [0] 0 (adaptor.text "Math output error") [].

End ScannerSample.

Example sample_strings :
  (HTMLDomStrings.default_find ScannerSample.sample_root).1
  = [js "a"; js "in"; [10%N] ++ js "world"]
  ∧ map (map (λ e, (address e.1, e.2)))
        (HTMLDomStrings.default_find ScannerSample.sample_root).2
    = [[([0; 0], Some 1)]; [([0; 1; 1; 0], Some 2)];
       [([2; 0], Some 1); ([3; 0], Some 5)]].
Proof. split; vm_compute; reflexivity. Qed.

Lemma pushString_discards_whitespace_witness :
  HTMLDomStrings.strings (HTMLDomStrings.pushString ScannerSample.sample_flush)
  = [js "a"]
  ∧ HTMLDomStrings.nodes (HTMLDomStrings.pushString ScannerSample.sample_flush)
    = [[(ScannerSample.sample_root, Some 1)]].
Proof.
  apply (pushString_discards_whitespace
           HTMLDomStrings.default_skipTags HTMLDomStrings.default_ignoreClass
           HTMLDomStrings.default_processClass HTMLDomStrings.default_includeTags
           Object_prototype ScannerSample.sample_flush).
  reflexivity.
Defined.

Lemma ignore_flag_inherited_witness :
  (∃ p, HTMLDomStrings.placed
          HTMLDomStrings.default_skipTags HTMLDomStrings.default_ignoreClass
          HTMLDomStrings.default_processClass HTMLDomStrings.default_includeTags
          Object_prototype
          ScannerSample.sample_root p ScannerSample.sample_inner
          (ScannerSample.sample_state 5).2)
  ∧ (∃ k st',
       HTMLDomStrings.while
         HTMLDomStrings.default_skipTags HTMLDomStrings.default_ignoreClass
         HTMLDomStrings.default_processClass HTMLDomStrings.default_includeTags
         Object_prototype k (adaptor.next ScannerSample.sample_root)
         HTMLDomStrings.init (Some ScannerSample.sample_span) false
       = (st', Some ScannerSample.sample_br, false)
       ∧ HTMLDomStrings.stack st' = []).
Proof.
  pose proof (ignore_flag_inherited
                HTMLDomStrings.default_skipTags
                HTMLDomStrings.default_ignoreClass
                HTMLDomStrings.default_processClass
                HTMLDomStrings.default_includeTags
                Object_prototype
                ScannerSample.sample_root) as (_ & Hplaced & _ & Hrestore & _).
  split.
  - refine (Hplaced 5 ScannerSample.sample_inner _ _); vm_compute; reflexivity.
  - destruct (Hrestore HTMLDomStrings.init ScannerSample.sample_span false
                ScannerSample.sample_br) as (k & st' & Hk & Hstack).
    + vm_compute; reflexivity.
    + reflexivity.
    + vm_compute; reflexivity.
    + simpl. lia.
    + exists k, st'. split; [exact Hk|exact Hstack].
Defined.

Lemma marked_subtrees_skipped_witness :
  HTMLDomStrings.handleContainer
    HTMLDomStrings.default_skipTags HTMLDomStrings.default_ignoreClass
    HTMLDomStrings.default_processClass
    HTMLDomStrings.init ScannerSample.sample_marked false
  = (HTMLDomStrings.pushString HTMLDomStrings.init,
     adaptor.next ScannerSample.sample_marked, false).
Proof.
  apply (proj1 (marked_subtrees_skipped
                  HTMLDomStrings.default_skipTags
                  HTMLDomStrings.default_ignoreClass
                  HTMLDomStrings.default_processClass
                  HTMLDomStrings.default_includeTags
                  Object_prototype
                  ScannerSample.sample_root)).
  vm_compute; reflexivity.
Defined.

(** A container that carries [data-mjx-error] and no [data-MJX] is descended
    into: its text is returned, with its child as provenance. *)
Lemma data_mjx_error_subtree_scanned :
  node_attribute ScannerSample.error_span "data-mjx-error" = Some "boom"
  ∧ adaptor.firstChild ScannerSample.error_root = Some ScannerSample.error_child
  ∧ HTMLDomStrings.default_find ScannerSample.error_root
    = ([js "Math output error"], [[(ScannerSample.error_child, Some 17)]]).
Proof. repeat split; vm_compute; reflexivity. Qed.

(** The attribute has to be truthy: a container with an empty [data-MJX] is
    descended into as well. *)
Example empty_data_MJX_scanned :
  HTMLDomStrings.default_find
    (Handle [] 0 (ElementNode "span" (<["data-MJX" := ""]> ∅) [TextNode (js "out")]) [])
  = ([js "out"], [[(Handle [0] 0 (TextNode (js "out")) [], Some 3)]]).
Proof. vm_compute; reflexivity. Qed.

(** C1, at an element whose kind names a member that the [includeTags]
    object inherits.  For [<div>a<constructor>inner</constructor>b</div>]
    [include['constructor']] is the function [Object], not [undefined]: the
    element is taken for an included tag, the 35 code units of the text of
    the function are appended to the string and the length recorded is the
    [length] of the function, 1.  [find] returns one string of 37 code units
    whose provenance list has three entries with recorded lengths 1, 1 and 1:
    the recorded lengths add up to 3, not to the length of the string. *)
Theorem constructor_tag_breaks_lengths :
  let found := HTMLDomStrings.default_find ScannerSample.constructor_root in
  found.1 = [js "afunction Object() { [native code] }b"]
  ∧ map (map (λ e, (address e.1, node_kind (here e.1), e.2))) found.2
    = [[([0; 0], "#text", Some 1); ([1; 0], "constructor", Some 1);
        ([2; 0], "#text", Some 1)]]
  ∧ Forall2 (λ s ns, length s = 37 ∧ sum_list (map (λ e, default 0 e.2) ns) = 3)
      found.1 found.2.
Proof.
  split; [vm_compute; reflexivity|]. split; [vm_compute; reflexivity|].
  vm_compute. repeat constructor.
Qed.

(** A root of kind [constructor] is not handled as a container either. *)
Example constructor_root_is_a_tag :
  HTMLDomStrings.default_find (Handle [] 0 (ElementNode "constructor" ∅ []) [])
  = ([js "function Object() { [native code] }"],
     [[(Handle [] 0 (ElementNode "constructor" ∅ []) [], Some 1)]]).
Proof. vm_compute; reflexivity. Qed.

(** For an element of kind [__proto__] the inherited member is the prototype
    object itself: the recorded length is [undefined]. *)
Example proto_tag_length_undefined :
  HTMLDomStrings.default_find (Handle [] 0 (ElementNode "__proto__" ∅ []) [])
  = ([js "[object Object]"],
     [[(Handle [] 0 (ElementNode "__proto__" ∅ []) [], None)]]).
Proof. vm_compute; reflexivity. Qed.

(** The span of [ScannerSample.error_span] is what [typesetError] stores in
    an item. *)
Example typesetError_span (m : MathItem) :
  typesetRoot (AbstractMathDocument.typesetError m (MkError "boom" false false))
  = Some ScannerSample.error_span.
Proof. reflexivity. Qed.

(** * Properties of the pipeline *)

Section PipelineFacts.

Import AbstractMathDocument.

Context {world : Type}.
Context (item_compile item_typeset item_updateDocument
           : MathItem → world → outcome (world := world) MathItem).
Context (item_set_state : Z → bool → MathItem → world → outcome (world := world) MathItem).
Context (jax_getMetrics : world → world * option Error).
Context (compileErrorOption typesetErrorOption
           : MathItem → Error → world → outcome (world := world) MathItem).
Context (COMPILED TYPESET INSERTED : Z).

Local Abbreviation compile_body := (compile_body item_compile compileErrorOption).
Local Abbreviation compile := (compile item_compile compileErrorOption).
Local Abbreviation typeset := (typeset item_typeset typesetErrorOption).
Local Abbreviation getMetrics := (getMetrics jax_getMetrics).
Local Abbreviation updateDocument := (updateDocument item_updateDocument).
Local Abbreviation state := (state item_set_state COMPILED TYPESET INSERTED).
Local Abbreviation full_run :=
  (full_run item_compile item_typeset item_updateDocument jax_getMetrics
            compileErrorOption typesetErrorOption).

(** *** Loops over the list *)

Lemma for_of_app body (l1 l2 : list MathItem) (w : world) :
  for_of body (l1 ++ l2) w =
  match for_of body l1 w with
  | (l1', w1, Some e) => (l1' ++ l2, w1, Some e)
  | (l1', w1, None) =>
      let '(l2', w2, r) := for_of body l2 w1 in (l1' ++ l2', w2, r)
  end.
Proof.
  revert w. induction l1 as [|m l1 IH]; intros w; simpl.
  - by destruct (for_of body l2 w) as [[l2' w2] r].
  - destruct (body m w) as [[m' w'] [e|]]; [done|].
    rewrite IH. destruct (for_of body l1 w') as [[l1' w1] [e|]]; [done|].
    by destruct (for_of body l2 w1) as [[l2' w2] r].
Qed.

Lemma for_of_length body (l : list MathItem) (w : world) :
  length (for_of body l w).1.1 = length l.
Proof.
  revert w. induction l as [|m l IH]; intros w; simpl; [done|].
  destruct (body m w) as [[m' w'] [e|]]; simpl; [done|].
  specialize (IH w'). destruct (for_of body l w') as [[l' w''] r].
  simpl in *. by rewrite IH.
Qed.

(** A loop throws only what its body throws. *)
Lemma for_of_throws body (P : Error → Prop) (l : list MathItem) (w : world) e :
  (∀ m w e, (body m w).2 = Some e → P e) →
  (for_of body l w).2 = Some e → P e.
Proof.
  intros Hbody. revert w. induction l as [|m l IH]; intros w; simpl; [done|].
  pose proof (Hbody m w) as Hm.
  destruct (body m w) as [[m' w'] [e'|]]; simpl in *.
  - intros [= <-]. by apply Hm.
  - specialize (IH w'). by destruct (for_of body l w') as [[l' w''] r].
Qed.

(** *** [compile] *)

Lemma compile_body_throws m w e :
  (∀ m e w, (compileErrorOption m e w).2 = None) →
  (compile_body m w).2 = Some e → retry e || restart e = true.
Proof.
  intros Hhandler. unfold AbstractMathDocument.compile_body.
  destruct (item_compile m w) as [[m1 w1] [err|]]; [|done].
  destruct (retry err || restart err) eqn:Hflag; [by intros [= <-]|].
  pose proof (Hhandler m1 err w1) as Hh.
  destruct (compileErrorOption m1 err w1) as [[m2 w2] r]. simpl in Hh.
  by rewrite Hh.
Qed.

(** The root of the internal tree that [compileError] synthesizes. *)
Definition input_error_tree (display : bool) (msg : string) : MmlNode :=
  MmlElement "math"
    (if display then <["display" := "block"]> (<["data-mjx-error" := msg]> ∅)
     else <["data-mjx-error" := msg]> ∅)
    [MmlElement "merror" ∅ [MmlElement "mtext" ∅ [MmlText "Math input error"]]].

Lemma compileError_root m err :
  root (compileError m err) = Some (input_error_tree (display m) (message err)).
Proof. unfold compileError, input_error_tree. by destruct (display m). Qed.

(** C2.  In [compile], on a document whose [compile] flag is not set:
    - a failure of an item that is flagged [retry] or [restart] leaves
      [compile] with that error, after the items before it have been
      handled; the items after it are untouched and the flag stays false;
    - any other failure is isolated: the [compileError] option is called on
      the item, the error is stored in [inputData.error], and the pass goes
      on with the next item, as it does after an item that compiled;
    - the flag is set exactly when the pass ends without an error, and if
      the option does not throw, only flagged errors leave [compile];
    - the default option stores the [Math input error] tree in the item,
      with [display = block] when the item is in display mode;
    - a pass that ends without an error returns the document with the
      items as the loop left them and the [compile] flag set, the other
      flags as they were, in the world as the loop left it; the loop over
      no items changes nothing;
    - the recorded error is what [inputData.error] then holds, and
      recording it changes nothing else of the item. *)
Theorem compile_isolates_failures :
  (∀ doc w pre m post pre' w1 m1 w2 e,
     p_compile (processed doc) = false →
     doc_math doc = pre ++ m :: post →
     for_of compile_body pre w = (pre', w1, None) →
     item_compile m w1 = (m1, w2, Some e) →
     retry e || restart e = true →
     compile doc w = (MkDocument (pre' ++ m1 :: post) (processed doc), w2, Some e))
  ∧ (∀ m rest w m1 w1 e m2 w2,
       item_compile m w = (m1, w1, Some e) →
       retry e || restart e = false →
       compileErrorOption m1 e w1 = (m2, w2, None) →
       for_of compile_body (m :: rest) w =
       let '(rest', w', r) := for_of compile_body rest w2 in
       (set_inputData m2 "error" e :: rest', w', r))
  ∧ (∀ m rest w m1 w1,
       item_compile m w = (m1, w1, None) →
       for_of compile_body (m :: rest) w =
       let '(rest', w', r) := for_of compile_body rest w1 in
       (m1 :: rest', w', r))
  ∧ (∀ doc w,
       p_compile (processed doc) = false →
       (p_compile (processed (compile doc w).1.1) = true ↔ (compile doc w).2 = None)
       ∧ length (doc_math (compile doc w).1.1) = length (doc_math doc))
  ∧ (∀ doc w e,
       (∀ m e w, (compileErrorOption m e w).2 = None) →
       (compile doc w).2 = Some e → retry e || restart e = true)
  ∧ (∀ m e (w : world),
       default_compileError m e w = (compileError m e, w, None)
       ∧ root (compileError m e) = Some (input_error_tree (display m) (message e)))
  ∧ (∀ doc w items w',
       p_compile (processed doc) = false →
       for_of compile_body (doc_math doc) w = (items, w', None) →
       compile doc w
       = (MkDocument items
            (MkProcessed (p_findMath (processed doc)) true
               (p_getMetrics (processed doc)) (p_typeset (processed doc))
               (p_updateDocument (processed doc))),
          w', None))
  ∧ (∀ w : world, for_of compile_body [] w = ([], w, None))
  ∧ (∀ m e,
       inputData (set_inputData m "error" e) !! "error" = Some e
       ∧ (∀ key, key ≠ "error" →
            inputData (set_inputData m "error" e) !! key = inputData m !! key)
       ∧ math (set_inputData m "error" e) = math m
       ∧ display (set_inputData m "error" e) = display m
       ∧ item_state (set_inputData m "error" e) = item_state m
       ∧ root (set_inputData m "error" e) = root m
       ∧ typesetRoot (set_inputData m "error" e) = typesetRoot m
       ∧ outputData (set_inputData m "error" e) = outputData m).
Proof.
  split; [|split; [|split; [|split; [|split; [|split; [|split; [|split]]]]]]].
  - intros doc w pre m post pre' w1 m1 w2 e Hflag Hmath Hpre Hm He.
    unfold AbstractMathDocument.compile. rewrite Hflag, Hmath, for_of_app, Hpre.
    simpl. unfold AbstractMathDocument.compile_body at 1. rewrite Hm, He.
    reflexivity.
  - intros m rest w m1 w1 e m2 w2 Hm He Hh. simpl.
    unfold AbstractMathDocument.compile_body at 1. rewrite Hm, He, Hh.
    reflexivity.
  - intros m rest w m1 w1 Hm. simpl.
    unfold AbstractMathDocument.compile_body at 1. rewrite Hm. reflexivity.
  - intros doc w Hflag. unfold AbstractMathDocument.compile. rewrite Hflag.
    pose proof (for_of_length compile_body (doc_math doc) w) as Hlen.
    destruct (for_of compile_body (doc_math doc) w) as [[items w'] [e|]];
      simpl in *; rewrite ?Hflag; by repeat split.
  - intros doc w e Hhandler. unfold AbstractMathDocument.compile.
    destruct (p_compile (processed doc)); [done|].
    pose proof (for_of_throws compile_body
                  (λ e, retry e || restart e = true) (doc_math doc) w e
                  (λ m w e, compile_body_throws m w e Hhandler)) as Hthrow.
    destruct (for_of compile_body (doc_math doc) w) as [[items w'] [e'|]];
      simpl in *; [|done]. intros [= <-]. by apply Hthrow.
  - intros m e w. split; [done|apply compileError_root].
  - intros doc w items w' Hflag Hloop.
    unfold AbstractMathDocument.compile. by rewrite Hflag, Hloop.
  - done.
  - intros m e. simpl. split; [apply lookup_insert_eq|].
    split; [|done]. intros key Hkey. by apply lookup_insert_ne.
Qed.

(** *** [state] *)

(** A loop whose body always returns, returns. *)
Lemma for_of_returns body (l : list MathItem) (w : world) :
  (∀ m w, (body m w).2 = None) →
  (for_of body l w).2 = None.
Proof.
  intros Hbody. destruct ((for_of body l w).2) as [e|] eqn:E; [|done].
  exfalso. eapply (for_of_throws body (λ _, False)); [|exact E].
  intros m w' e' He'. by rewrite Hbody in He'.
Qed.

(** What holds of every result of the body holds of every item after a
    loop that returned. *)
Lemma for_of_Forall body (P : MathItem → Prop) (l : list MathItem) (w : world) :
  (∀ m w, P (body m w).1.1) →
  (for_of body l w).2 = None →
  Forall P (for_of body l w).1.1.
Proof.
  intros Hbody. revert w. induction l as [|m l IH]; intros w; simpl;
    [by constructor|].
  pose proof (Hbody m w) as Hm.
  destruct (body m w) as [[m' w'] [e|]]; simpl in *; [done|].
  specialize (IH w'). destruct (for_of body l w') as [[l' w''] r].
  simpl in *. intros Hr. constructor; auto.
Qed.

(** The flags after a call that returns: the flag of the stage is set, the
    others are as before. *)
Lemma findMath_returns doc (w : world) :
  findMath doc w
  = (set_processed doc
       (MkProcessed true (p_compile (processed doc)) (p_getMetrics (processed doc))
          (p_typeset (processed doc)) (p_updateDocument (processed doc))), w, None).
Proof. reflexivity. Qed.

Ltac flags_of_call H :=
  match type of H with
  | context [p_compile (processed ?doc)] => destruct doc as [items [? ? ? ? ?]]
  | context [p_getMetrics (processed ?doc)] => destruct doc as [items [? ? ? ? ?]]
  | context [p_typeset (processed ?doc)] => destruct doc as [items [? ? ? ? ?]]
  | context [p_updateDocument (processed ?doc)] => destruct doc as [items [? ? ? ? ?]]
  end;
  simpl in H;
  repeat match type of H with
         | context [match ?x with _ => _ end] => destruct x
         end;
  simpl in H; try discriminate; injection H as <- <-; reflexivity.

Lemma compile_returns doc w doc' w' :
  compile doc w = (doc', w', None) →
  processed doc'
  = MkProcessed (p_findMath (processed doc)) true (p_getMetrics (processed doc))
      (p_typeset (processed doc)) (p_updateDocument (processed doc)).
Proof.
  unfold AbstractMathDocument.compile. intros H. flags_of_call H.
Qed.

Lemma getMetrics_returns doc w doc' w' :
  getMetrics doc w = (doc', w', None) →
  processed doc'
  = MkProcessed (p_findMath (processed doc)) (p_compile (processed doc)) true
      (p_typeset (processed doc)) (p_updateDocument (processed doc)).
Proof.
  unfold AbstractMathDocument.getMetrics. intros H. flags_of_call H.
Qed.

Lemma typeset_returns doc w doc' w' :
  typeset doc w = (doc', w', None) →
  processed doc'
  = MkProcessed (p_findMath (processed doc)) (p_compile (processed doc))
      (p_getMetrics (processed doc)) true (p_updateDocument (processed doc)).
Proof.
  unfold AbstractMathDocument.typeset. intros H. flags_of_call H.
Qed.

Lemma updateDocument_returns doc w doc' w' :
  updateDocument doc w = (doc', w', None) →
  processed doc'
  = MkProcessed (p_findMath (processed doc)) (p_compile (processed doc))
      (p_getMetrics (processed doc)) (p_typeset (processed doc)) true.
Proof.
  unfold AbstractMathDocument.updateDocument. intros H. flags_of_call H.
Qed.

Lemma chain_returns (f g : MathDocument → world → outcome MathDocument)
    doc w doc' w' :
  chain f g doc w = (doc', w', None) →
  ∃ doc1 w1, f doc w = (doc1, w1, None) ∧ g doc1 w1 = (doc', w', None).
Proof.
  unfold chain. destruct (f doc w) as [[doc1 w1] [e|]]; [done|]. eauto.
Qed.

Lemma full_run_returns doc w doc' w' :
  full_run doc w = (doc', w', None) →
  processed doc' = MkProcessed true true true true true.
Proof.
  unfold AbstractMathDocument.full_run. intros H.
  apply chain_returns in H as (d1 & w1 & H1 & H).
  apply chain_returns in H as (d2 & w2 & H2 & H).
  apply chain_returns in H as (d3 & w3 & H3 & H).
  apply chain_returns in H as (d4 & w4 & H4 & H5).
  rewrite findMath_returns in H1. injection H1 as <- <-.
  apply compile_returns in H2. apply getMetrics_returns in H3.
  apply typeset_returns in H4. apply updateDocument_returns in H5.
  rewrite H5, H4, H3, H2. reflexivity.
Qed.

(** C3.  When [state(target, restore)] returns, exactly the flags of the
    stages above [target] have been cleared: [updateDocument] if
    [target < INSERTED], [typeset] and [getMetrics] if [target < TYPESET],
    [compile] if [target < COMPILED]; every other flag, [findMath] among
    them, is as before.  It calls [state(target, restore)] on every item:
    when these calls return it returns, and when they set the state of
    their item, every item is in state [target] afterwards.  In particular,
    with the states in increasing order, [state(COMPILED, false)] after a
    full run leaves [findMath] and [compile] set and the other three
    cleared. *)
Theorem state_clears_later_stages :
  (∀ target restore doc w,
     let doc' := (state target restore doc w).1.1 in
     (state target restore doc w).2 = None →
     p_updateDocument (processed doc')
     = (if (target <? INSERTED)%Z then false else p_updateDocument (processed doc))
     ∧ p_typeset (processed doc')
       = (if (target <? TYPESET)%Z then false else p_typeset (processed doc))
     ∧ p_getMetrics (processed doc')
       = (if (target <? TYPESET)%Z then false else p_getMetrics (processed doc))
     ∧ p_compile (processed doc')
       = (if (target <? COMPILED)%Z then false else p_compile (processed doc))
     ∧ p_findMath (processed doc') = p_findMath (processed doc))
  ∧ (∀ target restore doc w,
       let doc' := (state target restore doc w).1.1 in
       (∀ m w, (item_set_state target restore m w).2 = None) →
       (∀ m w, item_state (item_set_state target restore m w).1.1 = target) →
       (state target restore doc w).2 = None
       ∧ length (doc_math doc') = length (doc_math doc)
       ∧ Forall (λ m, item_state m = target) (doc_math doc'))
  ∧ (∀ doc0 w0 doc w,
       (COMPILED < TYPESET)%Z → (TYPESET <= INSERTED)%Z →
       full_run doc0 w0 = (doc, w, None) →
       (state COMPILED false doc w).2 = None →
       processed (state COMPILED false doc w).1.1
       = MkProcessed true true false false false).
Proof.
  assert (∀ target restore doc w,
            (state target restore doc w).2 = None →
            processed (state target restore doc w).1.1
            = MkProcessed
                (p_findMath (processed doc))
                (if (target <? COMPILED)%Z then false
                 else p_compile (processed doc))
                (if (target <? TYPESET)%Z then false
                 else p_getMetrics (processed doc))
                (if (target <? TYPESET)%Z then false
                 else p_typeset (processed doc))
                (if (target <? INSERTED)%Z then false
                 else p_updateDocument (processed doc))) as Hflags.
  { intros target restore doc w. unfold AbstractMathDocument.state.
    destruct (for_of _ (doc_math doc) w) as [[items w'] [e|]]; simpl; [done|].
    intros _. destruct doc as [l [? ? ? ? ?]]. simpl.
    by destruct (target <? INSERTED)%Z, (target <? TYPESET)%Z,
                (target <? COMPILED)%Z. }
  split; [|split].
  - intros target restore doc w doc' Hr. subst doc'.
    by rewrite (Hflags _ _ _ _ Hr).
  - intros target restore doc w doc' Hret Hset. subst doc'.
    pose proof (for_of_returns (item_set_state target restore)
                  (doc_math doc) w Hret) as Hr.
    pose proof (for_of_length (item_set_state target restore)
                  (doc_math doc) w) as Hlen.
    pose proof (for_of_Forall (item_set_state target restore)
                  (λ m, item_state m = target) (doc_math doc) w Hset Hr) as Hall.
    unfold AbstractMathDocument.state.
    destruct (for_of _ (doc_math doc) w) as [[items w'] r]. simpl in *.
    by subst r.
  - intros doc0 w0 doc w H1 H2 Hrun Hr.
    rewrite (Hflags _ _ _ _ Hr), (full_run_returns _ _ _ _ Hrun). simpl.
    rewrite Z.ltb_irrefl.
    replace (COMPILED <? TYPESET)%Z with true by (symmetry; apply Z.ltb_lt; lia).
    replace (COMPILED <? INSERTED)%Z with true by (symmetry; apply Z.ltb_lt; lia).
    reflexivity.
Qed.

(** *** [updateDocument] *)

(** The items spliced from the last to the first: the item updates and the
    host tree after them. *)
Definition spliced_backwards (items : list MathItem) (w : world)
    : list MathItem * world :=
  foldr (λ m acc, ((item_updateDocument m acc.2).1.1 :: acc.1,
                   (item_updateDocument m acc.2).1.2))
        ([], w) items.

Lemma for_of_reversed (l : list MathItem) (w : world) :
  (∀ m w, (item_updateDocument m w).2 = None) →
  for_of item_updateDocument (reversed l) w
  = (rev (spliced_backwards l w).1, (spliced_backwards l w).2, None).
Proof.
  intros Hret. unfold reversed.
  induction l as [|m l IH]; simpl; [done|].
  rewrite for_of_app, IH. simpl.
  pose proof (Hret m (spliced_backwards l w).2) as Hm.
  destruct (item_updateDocument m (spliced_backwards l w).2) as [[m' w'] r].
  simpl in *. by subst.
Qed.

(** C6.  [updateDocument] does nothing when its flag is set, so a second
    call after one that returned does nothing.  When the flag is not set,
    the item that is last in document order is updated first, in the host
    tree as it is at the call, and the items before it afterwards, again
    last to first; when every item update returns, all items have been
    updated from the last to the first and the flag is set. *)
Theorem updateDocument_reverse_once :
  (∀ doc w,
     p_updateDocument (processed doc) = true →
     updateDocument doc w = (doc, w, None))
  ∧ (∀ doc w doc' w',
       updateDocument doc w = (doc', w', None) →
       updateDocument doc' w' = (doc', w', None))
  ∧ (∀ pre m w,
       for_of item_updateDocument (reversed (pre ++ [m])) w =
       match item_updateDocument m w with
       | (m', w', Some e) => (m' :: reversed pre, w', Some e)
       | (m', w', None) =>
           let '(pre', w'', r) := for_of item_updateDocument (reversed pre) w' in
           (m' :: pre', w'', r)
       end)
  ∧ (∀ doc w,
       p_updateDocument (processed doc) = false →
       (∀ m w, (item_updateDocument m w).2 = None) →
       updateDocument doc w
       = (MkDocument (spliced_backwards (doc_math doc) w).1
            (MkProcessed (p_findMath (processed doc)) (p_compile (processed doc))
               (p_getMetrics (processed doc)) (p_typeset (processed doc)) true),
          (spliced_backwards (doc_math doc) w).2, None)).
Proof.
  split; [|split; [|split]].
  - intros doc w Hflag. unfold AbstractMathDocument.updateDocument.
    by rewrite Hflag.
  - intros doc w doc' w' H.
    pose proof (updateDocument_returns _ _ _ _ H) as Hp.
    unfold AbstractMathDocument.updateDocument. by rewrite Hp.
  - intros pre m w. unfold reversed. rewrite rev_app_distr. reflexivity.
  - intros doc w Hflag Hret. unfold AbstractMathDocument.updateDocument.
    rewrite Hflag, for_of_reversed by done. simpl.
    by rewrite rev_involutive.
Qed.

(** *** [typeset] *)

Local Abbreviation typeset_body := (typeset_body item_typeset typesetErrorOption).

Lemma typeset_body_throws m w e :
  (∀ m e w, (typesetErrorOption m e w).2 = None) →
  (typeset_body m w).2 = Some e → retry e || restart e = true.
Proof.
  intros Hhandler. unfold AbstractMathDocument.typeset_body.
  destruct (item_typeset m w) as [[m1 w1] [err|]]; [|done].
  destruct (retry err || restart err) eqn:Hflag; [by intros [= <-]|].
  pose proof (Hhandler m1 err w1) as Hh.
  destruct (typesetErrorOption m1 err w1) as [[m2 w2] r]. simpl in Hh.
  by rewrite Hh.
Qed.

(** [typeset] has the policy of [compile]: a [retry] or [restart] failure
    of an item leaves [typeset] at once, with the items after it untouched
    and the flag unset; any other failure is handed to the [typesetError]
    option and stored in [outputData.error], and the pass goes on, as it
    does after an item that was typeset; if the option returns, only flagged
    errors leave [typeset]; the flag is set exactly when the pass returns,
    and then [typeset] returns the items and the world as the loop left
    them, with the other flags as they were.  The stored error is what
    [outputData.error] then holds, and storing it changes nothing else of
    the item. *)
Theorem typeset_isolates_failures :
  (∀ doc w pre m post pre' w1 m1 w2 e,
     p_typeset (processed doc) = false →
     doc_math doc = pre ++ m :: post →
     for_of typeset_body pre w = (pre', w1, None) →
     item_typeset m w1 = (m1, w2, Some e) →
     retry e || restart e = true →
     typeset doc w = (MkDocument (pre' ++ m1 :: post) (processed doc), w2, Some e))
  ∧ (∀ m rest w m1 w1 e m2 w2,
       item_typeset m w = (m1, w1, Some e) →
       retry e || restart e = false →
       typesetErrorOption m1 e w1 = (m2, w2, None) →
       for_of typeset_body (m :: rest) w =
       let '(rest', w', r) := for_of typeset_body rest w2 in
       (set_outputData m2 "error" e :: rest', w', r))
  ∧ (∀ doc w,
       p_typeset (processed doc) = false →
       (p_typeset (processed (typeset doc w).1.1) = true ↔ (typeset doc w).2 = None))
  ∧ (∀ doc w e,
       (∀ m e w, (typesetErrorOption m e w).2 = None) →
       (typeset doc w).2 = Some e → retry e || restart e = true)
  ∧ (∀ m rest w m1 w1,
       item_typeset m w = (m1, w1, None) →
       for_of typeset_body (m :: rest) w =
       let '(rest', w', r) := for_of typeset_body rest w1 in
       (m1 :: rest', w', r))
  ∧ (∀ doc w items w',
       p_typeset (processed doc) = false →
       for_of typeset_body (doc_math doc) w = (items, w', None) →
       typeset doc w
       = (MkDocument items
            (MkProcessed (p_findMath (processed doc)) (p_compile (processed doc))
               (p_getMetrics (processed doc)) true
               (p_updateDocument (processed doc))),
          w', None))
  ∧ (∀ w : world, for_of typeset_body [] w = ([], w, None))
  ∧ (∀ m e,
       outputData (set_outputData m "error" e) !! "error" = Some e
       ∧ (∀ key, key ≠ "error" →
            outputData (set_outputData m "error" e) !! key = outputData m !! key)
       ∧ math (set_outputData m "error" e) = math m
       ∧ display (set_outputData m "error" e) = display m
       ∧ item_state (set_outputData m "error" e) = item_state m
       ∧ root (set_outputData m "error" e) = root m
       ∧ typesetRoot (set_outputData m "error" e) = typesetRoot m
       ∧ inputData (set_outputData m "error" e) = inputData m).
Proof.
  split; [|split; [|split; [|split; [|split; [|split; [|split]]]]]].
  - intros doc w pre m post pre' w1 m1 w2 e Hflag Hmath Hpre Hm He.
    unfold AbstractMathDocument.typeset. rewrite Hflag, Hmath, for_of_app, Hpre.
    simpl. unfold AbstractMathDocument.typeset_body at 1. rewrite Hm, He.
    reflexivity.
  - intros m rest w m1 w1 e m2 w2 Hm He Hh. simpl.
    unfold AbstractMathDocument.typeset_body at 1. rewrite Hm, He, Hh.
    reflexivity.
  - intros doc w Hflag. unfold AbstractMathDocument.typeset. rewrite Hflag.
    destruct (for_of typeset_body (doc_math doc) w) as [[items w'] [e|]];
      simpl in *; rewrite ?Hflag; by split.
  - intros doc w e Hhandler. unfold AbstractMathDocument.typeset.
    destruct (p_typeset (processed doc)); [done|].
    pose proof (for_of_throws typeset_body
                  (λ e, retry e || restart e = true) (doc_math doc) w e
                  (λ m w e, typeset_body_throws m w e Hhandler)) as Hthrow.
    destruct (for_of typeset_body (doc_math doc) w) as [[items w'] [e'|]];
      simpl in *; [|done]. intros [= <-]. by apply Hthrow.
  - intros m rest w m1 w1 Hm. simpl.
    unfold AbstractMathDocument.typeset_body at 1. rewrite Hm. reflexivity.
  - intros doc w items w' Hflag Hloop.
    unfold AbstractMathDocument.typeset. by rewrite Hflag, Hloop.
  - done.
  - intros m e. simpl. split; [apply lookup_insert_eq|].
    split; [|done]. intros key Hkey. by apply lookup_insert_ne.
Qed.

(** *** The stages together *)

Lemma set_processed_same doc : set_processed doc (processed doc) = doc.
Proof. by destruct doc. Qed.

(** Each stage is done once: after a call of [compile], [getMetrics],
    [typeset] or [updateDocument] that returned, the next call of the same
    stage returns the document as it is, in whatever state the world is,
    and calls nothing; and so does the whole chain after a chain that
    returned. *)
Theorem stages_run_once :
  (∀ doc w doc' w', compile doc w = (doc', w', None) →
                    ∀ w2, compile doc' w2 = (doc', w2, None))
  ∧ (∀ doc w doc' w', getMetrics doc w = (doc', w', None) →
                      ∀ w2, getMetrics doc' w2 = (doc', w2, None))
  ∧ (∀ doc w doc' w', typeset doc w = (doc', w', None) →
                      ∀ w2, typeset doc' w2 = (doc', w2, None))
  ∧ (∀ doc w doc' w', updateDocument doc w = (doc', w', None) →
                      ∀ w2, updateDocument doc' w2 = (doc', w2, None))
  ∧ (∀ doc w doc' w', full_run doc w = (doc', w', None) →
                      ∀ w2, full_run doc' w2 = (doc', w2, None)).
Proof.
  split; [|split; [|split; [|split]]].
  - intros doc w doc' w' H w2. apply compile_returns in H.
    unfold AbstractMathDocument.compile. by rewrite H.
  - intros doc w doc' w' H w2. apply getMetrics_returns in H.
    unfold AbstractMathDocument.getMetrics. by rewrite H.
  - intros doc w doc' w' H w2. apply typeset_returns in H.
    unfold AbstractMathDocument.typeset. by rewrite H.
  - intros doc w doc' w' H w2. apply updateDocument_returns in H.
    unfold AbstractMathDocument.updateDocument. by rewrite H.
  - intros doc w doc' w' H w2. apply full_run_returns in H.
    unfold AbstractMathDocument.full_run, chain, findMath,
      AbstractMathDocument.compile, AbstractMathDocument.getMetrics,
      AbstractMathDocument.typeset, AbstractMathDocument.updateDocument.
    destruct doc' as [items p]. simpl in *. subst p. reflexivity.
Qed.

(** A flag that is set stays set. *)
Definition flags_le (p q : MathProcessed) : Prop :=
  (p_findMath p = true → p_findMath q = true)
  ∧ (p_compile p = true → p_compile q = true)
  ∧ (p_getMetrics p = true → p_getMetrics q = true)
  ∧ (p_typeset p = true → p_typeset q = true)
  ∧ (p_updateDocument p = true → p_updateDocument q = true).

Lemma flags_le_refl p : flags_le p p.
Proof. by repeat split. Qed.

Lemma flags_le_trans p q r : flags_le p q → flags_le q r → flags_le p r.
Proof.
  intros (a & b & c & d & e) (a' & b' & c' & d' & e').
  repeat split; auto.
Qed.

(** A stage keeps the number of items and clears no flag. *)
Definition stage_ok
    (f : MathDocument → world → outcome (world := world) MathDocument) : Prop :=
  ∀ doc w,
    length (doc_math (f doc w).1.1) = length (doc_math doc)
    ∧ flags_le (processed doc) (processed (f doc w).1.1).

Lemma chain_ok f g : stage_ok f → stage_ok g → stage_ok (chain f g).
Proof.
  intros Hf Hg doc w. unfold chain.
  destruct (Hf doc w) as (Hlen & Hle).
  destruct (f doc w) as [[doc1 w1] [e|]]; simpl in *; [done|].
  destruct (Hg doc1 w1) as (Hlen' & Hle').
  split; [congruence|]. by eapply flags_le_trans.
Qed.

Lemma loop_stage_ok body (flag : MathProcessed → bool)
    (set : MathProcessed → MathProcessed) (back : list MathItem → list MathItem) :
  (∀ p, flags_le p (set p)) →
  (∀ l, length (back l) = length l) →
  stage_ok (λ doc w,
    if flag (processed doc) then (doc, w, None)
    else
      let '(items, w, r) := for_of body (back (doc_math doc)) w in
      let doc := set_math doc (back items) in
      match r with
      | Some e => (doc, w, Some e)
      | None => (set_processed doc (set (processed doc)), w, None)
      end).
Proof.
  intros Hset Hback doc w.
  destruct (flag (processed doc)); [split; [done|apply flags_le_refl]|].
  pose proof (for_of_length body (back (doc_math doc)) w) as Hlen.
  destruct (for_of body (back (doc_math doc)) w) as [[items w'] [e|]];
    simpl in *; (split; [by rewrite Hback, Hlen, Hback|]);
    [apply flags_le_refl|apply Hset].
Qed.

Lemma compile_ok : stage_ok compile.
Proof.
  apply (loop_stage_ok compile_body p_compile
           (λ p, MkProcessed (p_findMath p) true (p_getMetrics p) (p_typeset p)
                             (p_updateDocument p)) id); [|done].
  intros p. by repeat split.
Qed.

Lemma typeset_ok : stage_ok typeset.
Proof.
  apply (loop_stage_ok typeset_body p_typeset
           (λ p, MkProcessed (p_findMath p) (p_compile p) (p_getMetrics p) true
                             (p_updateDocument p)) id); [|done].
  intros p. by repeat split.
Qed.

Lemma updateDocument_ok : stage_ok updateDocument.
Proof.
  intros doc w. unfold AbstractMathDocument.updateDocument, reversed.
  destruct (p_updateDocument (processed doc)); [split; [done|apply flags_le_refl]|].
  pose proof (for_of_length item_updateDocument (rev (doc_math doc)) w) as Hlen.
  destruct (for_of item_updateDocument (rev (doc_math doc)) w)
    as [[items w'] [e|]]; simpl in *;
    (split; [by rewrite length_rev, Hlen, length_rev|]);
    [apply flags_le_refl|by repeat split].
Qed.

Lemma getMetrics_ok : stage_ok getMetrics.
Proof.
  intros doc w. unfold AbstractMathDocument.getMetrics.
  destruct (p_getMetrics (processed doc)); [split; [done|apply flags_le_refl]|].
  destruct (jax_getMetrics w) as [w' [e|]]; simpl;
    (split; [done|]); [apply flags_le_refl|by repeat split].
Qed.

Lemma findMath_ok : stage_ok findMath.
Proof. intros doc w. split; [done|]. by repeat split. Qed.

Lemma full_run_ok : stage_ok full_run.
Proof.
  apply chain_ok; [apply findMath_ok|].
  apply chain_ok; [apply compile_ok|].
  apply chain_ok; [apply getMetrics_ok|].
  apply chain_ok; [apply typeset_ok|apply updateDocument_ok].
Qed.

(** A stage that throws marks nothing. *)
Lemma stage_throws_flags :
  ∀ doc w,
    (is_Some (compile doc w).2 → processed (compile doc w).1.1 = processed doc)
    ∧ (is_Some (getMetrics doc w).2 → processed (getMetrics doc w).1.1 = processed doc)
    ∧ (is_Some (typeset doc w).2 → processed (typeset doc w).1.1 = processed doc)
    ∧ (is_Some (updateDocument doc w).2 →
       processed (updateDocument doc w).1.1 = processed doc).
Proof.
  intros doc w. unfold AbstractMathDocument.compile, AbstractMathDocument.getMetrics,
    AbstractMathDocument.typeset, AbstractMathDocument.updateDocument.
  repeat split.
  - destruct (p_compile (processed doc)); [done|].
    destruct (for_of _ _ _) as [[items w'] [e|]]; simpl; [done|].
    by intros [? ?].
  - destruct (p_getMetrics (processed doc)); [done|].
    destruct (jax_getMetrics w) as [w' [e|]]; simpl; [done|]. by intros [? ?].
  - destruct (p_typeset (processed doc)); [done|].
    destruct (for_of _ _ _) as [[items w'] [e|]]; simpl; [done|].
    by intros [? ?].
  - destruct (p_updateDocument (processed doc)); [done|].
    destruct (for_of _ _ _) as [[items w'] [e|]]; simpl; [done|].
    by intros [? ?].
Qed.

(** No stage, and no chain of stages, clears a flag or changes the number of
    items, whether it returns or throws; and a stage that throws leaves
    every flag as it was, so that a stage is marked as processed only by a
    pass that returned. *)
Theorem stages_keep_flags_and_items (doc : MathDocument) (w : world) :
  (length (doc_math (full_run doc w).1.1) = length (doc_math doc)
   ∧ flags_le (processed doc) (processed (full_run doc w).1.1))
  ∧ (length (doc_math (compile doc w).1.1) = length (doc_math doc)
     ∧ length (doc_math (typeset doc w).1.1) = length (doc_math doc)
     ∧ length (doc_math (updateDocument doc w).1.1) = length (doc_math doc))
  ∧ (is_Some (compile doc w).2 → processed (compile doc w).1.1 = processed doc)
  ∧ (is_Some (getMetrics doc w).2 → processed (getMetrics doc w).1.1 = processed doc)
  ∧ (is_Some (typeset doc w).2 → processed (typeset doc w).1.1 = processed doc)
  ∧ (is_Some (updateDocument doc w).2 →
     processed (updateDocument doc w).1.1 = processed doc).
Proof.
  split; [|split; [|apply stage_throws_flags]].
  - apply full_run_ok.
  - split; [apply compile_ok|]. split; [apply typeset_ok|apply updateDocument_ok].
Qed.

(** [updateDocument] catches nothing: whatever an item update throws leaves
    [updateDocument] at once, flagged or not.  The items after the failing
    one in document order have been updated, those before it are untouched,
    and the flag is not set. *)
Theorem updateDocument_propagates :
  ∀ doc w pre m post post' w1 m1 w2 e,
    p_updateDocument (processed doc) = false →
    doc_math doc = pre ++ m :: post →
    for_of item_updateDocument (reversed post) w = (post', w1, None) →
    item_updateDocument m w1 = (m1, w2, Some e) →
    updateDocument doc w
    = (MkDocument (pre ++ m1 :: rev post') (processed doc), w2, Some e).
Proof.
  intros doc w pre m post post' w1 m1 w2 e Hflag Hmath Hpost Hm.
  unfold AbstractMathDocument.updateDocument, reversed in *.
  rewrite Hflag, Hmath, rev_app_distr. simpl. rewrite <- app_assoc. simpl.
  rewrite for_of_app, Hpost. simpl. rewrite Hm. simpl.
  unfold set_math. simpl. rewrite rev_app_distr. simpl.
  by rewrite rev_involutive, <- app_assoc.
Qed.

(** If no item ever fails with a flagged error, and the error options, the
    metrics and the item updates return, the whole chain returns with every
    stage processed and every item still in the list: a failing item stops
    nothing. *)
Theorem pipeline_completes :
  (∀ m w e, (item_compile m w).2 = Some e → retry e || restart e = false) →
  (∀ m w e, (item_typeset m w).2 = Some e → retry e || restart e = false) →
  (∀ m e w, (compileErrorOption m e w).2 = None) →
  (∀ m e w, (typesetErrorOption m e w).2 = None) →
  (∀ w, (jax_getMetrics w).2 = None) →
  (∀ m w, (item_updateDocument m w).2 = None) →
  ∀ doc w,
    (full_run doc w).2 = None
    ∧ processed (full_run doc w).1.1 = MkProcessed true true true true true
    ∧ length (doc_math (full_run doc w).1.1) = length (doc_math doc).
Proof.
  intros Hc Ht Hce Hte Hgm Hud.
  assert (∀ m w, (compile_body m w).2 = None) as Hcb.
  { intros m w. destruct ((compile_body m w).2) as [e|] eqn:E; [|done].
    pose proof (compile_body_throws m w e Hce E) as Hflag.
    unfold AbstractMathDocument.compile_body in E.
    pose proof (Hc m w) as Hm.
    destruct (item_compile m w) as [[m1 w1] [err|]]; simpl in *; [|done].
    rewrite (Hm err eq_refl) in E.
    pose proof (Hce m1 err w1) as Hh.
    destruct (compileErrorOption m1 err w1) as [[m2 w2] r]. simpl in *.
    by subst r. }
  assert (∀ m w, (typeset_body m w).2 = None) as Htb.
  { intros m w. destruct ((typeset_body m w).2) as [e|] eqn:E; [|done].
    unfold AbstractMathDocument.typeset_body in E.
    pose proof (Ht m w) as Hm.
    destruct (item_typeset m w) as [[m1 w1] [err|]]; simpl in *; [|done].
    rewrite (Hm err eq_refl) in E.
    pose proof (Hte m1 err w1) as Hh.
    destruct (typesetErrorOption m1 err w1) as [[m2 w2] r]. simpl in *.
    by subst r. }
  assert (∀ doc w, (full_run doc w).2 = None) as Hrun.
  { intros doc w.
    unfold AbstractMathDocument.full_run, chain, findMath,
      AbstractMathDocument.compile, AbstractMathDocument.getMetrics,
      AbstractMathDocument.typeset, AbstractMathDocument.updateDocument.
    simpl.
    destruct (p_compile (processed doc)); simpl.
    all: repeat
      match goal with
      | |- context [for_of ?b ?l ?w] =>
          let H := fresh in
          pose proof (for_of_returns b l w ltac:(assumption)) as H;
          destruct (for_of b l w) as [[? ?] ?]; simpl in H; subst; simpl
      | |- context [jax_getMetrics ?w] =>
          let H := fresh in
          pose proof (Hgm w) as H;
          destruct (jax_getMetrics w) as [? ?]; simpl in H; subst; simpl
      | |- context [if ?b then _ else _] => destruct b; simpl
      end; done. }
  intros doc w. split; [apply Hrun|]. split.
  - pose proof (Hrun doc w) as Hr.
    destruct (full_run doc w) as [[doc' w'] r] eqn:E. simpl in *. subst r.
    by eapply full_run_returns.
  - apply full_run_ok.
Qed.

End PipelineFacts.

(** *** The error fallbacks *)

(** C10.  Both default error fallbacks keep the message of the error in a
    [data-mjx-error] attribute of what they synthesize: [compileError] on
    the [math] root of the [Math input error] tree (which gets
    [display = block] exactly when the item is in display mode), and
    [typesetError] on the [span] around [Math output error]. *)
Theorem error_fallbacks_record_message (m : MathItem) (err : Error) :
  (∃ t children,
     root (AbstractMathDocument.compileError m err) = Some t
     ∧ mml_attribute t "data-mjx-error" = Some (message err)
     ∧ mml_attribute t "display" = (if display m then Some "block" else None)
     ∧ t = MmlElement "math"
             (if display m
              then <["display" := "block"]> (<["data-mjx-error" := message err]> ∅)
              else <["data-mjx-error" := message err]> ∅)
             children
     ∧ children
       = [MmlElement "merror" ∅ [MmlElement "mtext" ∅ [MmlText "Math input error"]]])
  ∧ (∃ n,
       typesetRoot (AbstractMathDocument.typesetError m err) = Some n
       ∧ node_attribute n "data-mjx-error" = Some (message err)
       ∧ node_kind n = "span"
       ∧ node_children n = [TextNode (js "Math output error")])
  ∧ display (AbstractMathDocument.compileError m err) = display m
  ∧ math (AbstractMathDocument.compileError m err) = math m
  ∧ math (AbstractMathDocument.typesetError m err) = math m.
Proof.
  split; [|split; [|done]].
  - eexists _, _. split; [apply compileError_root|].
    unfold input_error_tree. split; [|split; [|split]]; try reflexivity.
    + destruct (display m); simpl.
      * rewrite lookup_insert_ne by done. apply lookup_insert_eq.
      * apply lookup_insert_eq.
    + destruct (display m); simpl.
      * apply lookup_insert_eq.
      * rewrite lookup_insert_ne by done. apply lookup_empty.
  - eexists. split; [reflexivity|]. simpl. split; [|done].
    apply lookup_insert_eq.
Qed.

(** *** The pipeline on a sample document *)

Module PipelineSample.

Import AbstractMathDocument.

(** The world is the list of the calls made to the collaborators. *)
Definition log : Type := list string.

Definition item (src : string) (display : bool) : MathItem :=
  MkMathItem src display 0 None None ∅ ∅.

Definition parse_error : Error := MkError "Undefined control sequence" false false.

Definition not_loaded : Error := MkError "extension not loaded" true false.

(** An input processor that fails on [\bad] and asks for a retry on
    [\require]. *)
Definition sample_compile (m : MathItem) (w : log) : outcome MathItem :=
  let w := w ++ [("compile " ++ math m)%string] in
  if bool_decide (math m = "\bad") then (m, w, Some parse_error)
  else if bool_decide (math m = "\require") then (m, w, Some not_loaded)
  else (set_item_state (set_root m (MmlElement "math" ∅ [MmlText (math m)])) 1,
        w, None).

Definition sample_typeset (m : MathItem) (w : log) : outcome MathItem :=
  (set_item_state (set_typesetRoot m (adaptor.node "mjx-container" ∅ [])) 2,
   w ++ [("typeset " ++ math m)%string], None).

Definition sample_update (m : MathItem) (w : log) : outcome MathItem :=
  (set_item_state m 3, w ++ [("insert " ++ math m)%string], None).

Definition sample_set_state (target : Z) (restore : bool) (m : MathItem) (w : log)
    : outcome MathItem :=
  (set_item_state m target, w ++ [("state " ++ math m)%string], None).

Definition sample_getMetrics (w : log) : log * option Error := (w ++ ["metrics"], None).

Definition flags0 : MathProcessed := MkProcessed false false false false false.

Definition doc_bad : MathDocument :=
  MkDocument [item "x" false; item "\bad" true; item "y" false] flags0.

Definition doc_retry : MathDocument :=
  MkDocument [item "x" false; item "\require" false; item "y" false] flags0.

Definition sample_compile_doc : MathDocument → log → outcome MathDocument :=
  compile sample_compile default_compileError.

Definition sample_run : MathDocument → log → outcome MathDocument :=
  full_run sample_compile sample_typeset sample_update sample_getMetrics
    default_compileError default_typesetError.

Definition sample_state : Z → bool → MathDocument → log → outcome MathDocument :=
  state sample_set_state 1 2 3.

End PipelineSample.

(** One failing item does not stop the pass: the items around it are
    compiled, it gets the error tree and the error. *)
Example compile_bad_item :
  let r := PipelineSample.sample_compile_doc PipelineSample.doc_bad [] in
  r.2 = None
  ∧ r.1.2 = ["compile x"; "compile \bad"; "compile y"]
  ∧ p_compile (processed r.1.1) = true
  ∧ map item_state (doc_math r.1.1) = [1; 0; 1]%Z
  ∧ ((λ m, inputData m !! "error") <$> doc_math r.1.1 !! 1)
    = Some (Some PipelineSample.parse_error)
  ∧ (root <$> doc_math r.1.1 !! 1)
    = Some (Some (input_error_tree true "Undefined control sequence")).
Proof. repeat split; vm_compute; reflexivity. Qed.

Lemma compile_isolates_failures_witness :
  PipelineSample.sample_compile_doc PipelineSample.doc_retry []
  = (MkDocument
       ([set_item_state
           (set_root (PipelineSample.item "x" false)
                     (MmlElement "math" ∅ [MmlText "x"])) 1]
        ++ PipelineSample.item "\require" false :: [PipelineSample.item "y" false])
       PipelineSample.flags0,
     ["compile x"; "compile \require"],
     Some PipelineSample.not_loaded).
Proof.
  apply (proj1 (compile_isolates_failures
                  PipelineSample.sample_compile
                  AbstractMathDocument.default_compileError)
           PipelineSample.doc_retry [] [PipelineSample.item "x" false]
           (PipelineSample.item "\require" false) [PipelineSample.item "y" false]
           _ ["compile x"]);
    reflexivity.
Defined.

Example full_run_then_state :
  let r := PipelineSample.sample_run PipelineSample.doc_bad [] in
  let r' := PipelineSample.sample_state 1 false r.1.1 r.1.2 in
  r.2 = None
  ∧ processed r.1.1 = MkProcessed true true true true true
  ∧ processed r'.1.1 = MkProcessed true true false false false
  ∧ map item_state (doc_math r'.1.1) = [1; 1; 1]%Z.
Proof. repeat split; vm_compute; reflexivity. Qed.

Lemma state_clears_later_stages_witness :
  processed
    (PipelineSample.sample_state 1 false
       (PipelineSample.sample_run PipelineSample.doc_bad []).1.1
       (PipelineSample.sample_run PipelineSample.doc_bad []).1.2).1.1
  = MkProcessed true true false false false.
Proof.
  apply (proj2 (proj2 (state_clears_later_stages
                  PipelineSample.sample_compile PipelineSample.sample_typeset
                  PipelineSample.sample_update PipelineSample.sample_set_state
                  PipelineSample.sample_getMetrics
                  AbstractMathDocument.default_compileError
                  AbstractMathDocument.default_typesetError 1 2 3))
           PipelineSample.doc_bad []);
    [lia|lia|vm_compute; reflexivity|vm_compute; reflexivity].
Defined.

(** The items are inserted from the last to the first, once. *)
Example updateDocument_order :
  let update := AbstractMathDocument.updateDocument PipelineSample.sample_update in
  let r := update PipelineSample.doc_bad [] in
  r.2 = None
  ∧ r.1.2 = ["insert y"; "insert \bad"; "insert x"]
  ∧ map math (doc_math r.1.1) = ["x"; "\bad"; "y"]
  ∧ p_updateDocument (processed r.1.1) = true
  ∧ update r.1.1 r.1.2 = r.
Proof. repeat split; vm_compute; reflexivity. Qed.

(** After [reset] the items are inserted again by the next call. *)
Example updateDocument_after_reset :
  let update := AbstractMathDocument.updateDocument PipelineSample.sample_update in
  let r := update PipelineSample.doc_bad [] in
  let r' := AbstractMathDocument.reset r.1.1 r.1.2 in
  (update r'.1.1 r'.1.2).1.2
  = ["insert y"; "insert \bad"; "insert x"; "insert y"; "insert \bad"; "insert x"].
Proof. vm_compute; reflexivity. Qed.

Lemma updateDocument_reverse_once_witness :
  let update := AbstractMathDocument.updateDocument PipelineSample.sample_update in
  update (update PipelineSample.doc_bad []).1.1 (update PipelineSample.doc_bad []).1.2
  = ((update PipelineSample.doc_bad []).1.1, (update PipelineSample.doc_bad []).1.2, None).
Proof.
  apply (proj1 (proj2 (updateDocument_reverse_once PipelineSample.sample_update))
           PipelineSample.doc_bad []).
  vm_compute; reflexivity.
Defined.

(** * Properties of the layout wrappers *)

Section MfracFacts.

Import PrimFloat CommonMfrac.

Local Open Scope float_scope.



End MfracFacts.

Set Warnings "-inexact-float".

Module MfracSample.

Import PrimFloat CommonMfrac.

Local Open Scope float_scope.



(** [num1 = 0.7], [num3 = 0.4], [denom1 = 0.7], [denom2 = 0.35],
    [rule_thickness = 0.06]. *)
Definition tex : FontParams (num := double) := MkFontParams 0.7 0.4 0.7 0.35 0.06.


(** [num3 = denom2 = 0.15], [rule_thickness = 0.1]: the gap of the initial
    offsets is 0.3 and the minimum is [3 * 0.1]. *)
Definition tex_boundary : FontParams (num := double) :=
  MkFontParams 0.7 0.15 0.7 0.15 0.1.

Definition flat : BBox (num := double) := MkBBox 1 0 0 1 1.

End MfracSample.

Section MfracOnSample.

Import PrimFloat.

Local Open Scope float_scope.



(** Rounding also decides the comparison: with [num3 = denom2 = 0.15] and
    [rule_thickness = 0.1] the gap of the initial offsets is 0.3 and the
    minimum [3 * 0.1] is 0.30000000000000004, so the offsets are moved. *)
Example atop_boundary_rounds :
  let r := CommonMfrac.getUVQ_double MfracSample.tex_boundary MfracSample.flat
             MfracSample.flat false in
  CommonMfrac.q r = 0.30000000000000004%float
  ∧ CommonMfrac.u r = 0.15000000000000002%float
  ∧ CommonMfrac.v r = 0.15000000000000002%float.
Proof. repeat split; vm_compute; reflexivity. Qed.

End MfracOnSample.

Section MsFacts.

Import CommonMs.

(** The quote that the constructor puts around the children, for the value
    in force, whether the attribute is set on the node, and whether the
    variant is monospace. *)
Definition chosen_quote (typographic value : list N) (set monospace : bool) : list N :=
  if negb monospace && negb set && bool_decide (value = quotation_mark)
  then typographic else value.

(** C8.  The constructor puts a text wrapper for the left quote before the
    children and one for the right quote after them, and changes nothing
    else; the two wrappers are text wrappers that carry the quote
    characters.  The left quote is U+201C when the variant is not monospace,
    [lquote] is not set on the node and its value is the plain double
    quote; in every other case it is the value of [lquote].  The same holds
    of the right quote, with U+201D and [rquote]. *)
Theorem ms_quotes_added (base : Ms) :
  let a := attributes base in
  let monospace := bool_decide (variant base = "monospace") in
  let lquote := chosen_quote left_double_quotation_mark (get a "lquote")
                  (isSet a "lquote") monospace in
  let rquote := chosen_quote right_double_quotation_mark (get a "rquote")
                  (isSet a "rquote") monospace in
  childNodes (constructor base)
  = [createText lquote] ++ childNodes base ++ [createText rquote]
  ∧ attributes (constructor base) = a
  ∧ variant (constructor base) = variant base
  ∧ (variant base ≠ "monospace" → isSet a "lquote" = false →
     get a "lquote" = quotation_mark → lquote = [8220%N])
  ∧ (variant base ≠ "monospace" → isSet a "rquote" = false →
     get a "rquote" = quotation_mark → rquote = [8221%N])
  ∧ (variant base = "monospace" →
     lquote = get a "lquote" ∧ rquote = get a "rquote")
  ∧ (isSet a "lquote" = true → lquote = get a "lquote")
  ∧ (isSet a "rquote" = true → rquote = get a "rquote")
  ∧ (get a "lquote" ≠ quotation_mark → lquote = get a "lquote")
  ∧ (get a "rquote" ≠ quotation_mark → rquote = get a "rquote")
  ∧ childNodes (constructor base)
    = MkWrapper "text" lquote [] :: childNodes base ++ [MkWrapper "text" rquote []]
  ∧ (∀ text, createText text = MkWrapper "text" text []).
Proof.
  intros a monospace lquote rquote.
  subst lquote rquote monospace. unfold chosen_quote.
  split; [reflexivity|]. split; [reflexivity|]. split; [reflexivity|].
  split; [|split; [|split; [|split; [|split; [|split; [|split; [|split]]]]]]];
    [..|reflexivity|reflexivity].
  - intros Hv Hs Hq. rewrite Hs, Hq, (bool_decide_false _ Hv). reflexivity.
  - intros Hv Hs Hq. rewrite Hs, Hq, (bool_decide_false _ Hv). reflexivity.
  - intros Hv. by rewrite (bool_decide_true _ Hv).
  - intros Hs. rewrite Hs. by rewrite andb_false_r.
  - intros Hs. rewrite Hs. by rewrite andb_false_r.
  - intros Hq. rewrite (bool_decide_false _ Hq). by rewrite andb_false_r.
  - intros Hq. rewrite (bool_decide_false _ Hq). by rewrite andb_false_r.
Qed.

End MsFacts.

Module MsSample.

Import CommonMs.

(** [<ms>abc</ms>]: no quote is set on the node, the defaults are in force. *)
Definition plain : Ms :=
  MkMs (MkAttributes (λ _, false) (λ _, quotation_mark)) "normal"
       [MkWrapper "text" (js "abc") []].

(** [<ms lquote="'">abc</ms>] *)
Definition single : Ms :=
  MkMs (MkAttributes (λ name, bool_decide (name = "lquote"))
          (λ name, if bool_decide (name = "lquote") then js "'" else quotation_mark))
       "normal" [MkWrapper "text" (js "abc") []].

End MsSample.

Example ms_plain :
  CommonMs.childNodes (CommonMs.constructor MsSample.plain)
  = [CommonMs.MkWrapper "text" [8220%N] [];
     CommonMs.MkWrapper "text" (js "abc") [];
     CommonMs.MkWrapper "text" [8221%N] []].
Proof. reflexivity. Qed.

Example ms_single :
  CommonMs.childNodes (CommonMs.constructor MsSample.single)
  = [CommonMs.MkWrapper "text" (js "'") [];
     CommonMs.MkWrapper "text" (js "abc") [];
     CommonMs.MkWrapper "text" [8221%N] []].
Proof. reflexivity. Qed.

Lemma ms_quotes_added_witness :
  CommonMs.childNodes (CommonMs.constructor MsSample.plain)
  = [CommonMs.MkWrapper "text" [8220%N] [];
     CommonMs.MkWrapper "text" (js "abc") [];
     CommonMs.MkWrapper "text" [8221%N] []].
Proof.
  pose proof (ms_quotes_added MsSample.plain) as H. cbv zeta in H.
  destruct H as (_ & _ & _ & Hl & Hr & _ & _ & _ & _ & _ & Hc & _).
  rewrite Hc, Hl, Hr; [reflexivity|discriminate|reflexivity..|discriminate|
                       reflexivity|reflexivity].
Defined.

(** * The further properties on the samples *)

Module MoreSamples.

Import AbstractMathDocument PipelineSample.

(** A root that is a text node. *)
Definition text_root : handle := Handle [2] 1 (TextNode (js "x = 1")) [].

(** An output processor that asks for a retry on [\require]. *)
Definition typeset_retry (m : MathItem) (w : log) : outcome MathItem :=
  let w := w ++ [("typeset " ++ math m)%string] in
  if bool_decide (math m = "\require") then (m, w, Some not_loaded)
  else (set_item_state (set_typesetRoot m (adaptor.node "mjx-container" ∅ [])) 2,
        w, None).

(** An item update that fails on [\bad]. *)
Definition update_failing (m : MathItem) (w : log) : outcome MathItem :=
  let w := w ++ [("insert " ++ math m)%string] in
  if bool_decide (math m = "\bad") then (m, w, Some parse_error)
  else (set_item_state m 3, w, None).

(** An input processor that fails on [\bad] and never asks for a retry. *)
Definition compile_soft (m : MathItem) (w : log) : outcome MathItem :=
  let w := w ++ [("compile " ++ math m)%string] in
  if bool_decide (math m = "\bad") then (m, w, Some parse_error)
  else (set_item_state (set_root m (MmlElement "math" ∅ [MmlText (math m)])) 1,
        w, None).

Definition run_soft : MathDocument → log → outcome MathDocument :=
  full_run compile_soft sample_typeset sample_update sample_getMetrics
    default_compileError default_typesetError.

End MoreSamples.

Lemma find_edge_cases_witness :
  HTMLDomStrings.default_find MoreSamples.text_root
  = ([js "x = 1"], [[(MoreSamples.text_root, Some 5)]]).
Proof.
  exact (proj1 (find_edge_cases
                  HTMLDomStrings.default_skipTags HTMLDomStrings.default_ignoreClass
                  HTMLDomStrings.default_processClass
                  HTMLDomStrings.default_includeTags Object_prototype
                  MoreSamples.text_root)
           (js "x = 1") eq_refl).
Defined.

Lemma find_lengths_for_own_kinds_witness :
  Forall2 (λ s ns,
      s = concat (map (λ e, HTMLDomStrings.text_of
                              HTMLDomStrings.default_includeTags Object_prototype
                              e.1) ns)
      ∧ Forall (λ e, e.2 = Some (length (HTMLDomStrings.text_of
                                           HTMLDomStrings.default_includeTags
                                           Object_prototype e.1))) ns
      ∧ sum_list (map (λ e, default 0 e.2) ns) = length s)
    (HTMLDomStrings.default_find ScannerSample.sample_root).1
    (HTMLDomStrings.default_find ScannerSample.sample_root).2.
Proof.
  apply (find_lengths_for_own_kinds
           HTMLDomStrings.default_skipTags HTMLDomStrings.default_ignoreClass
           HTMLDomStrings.default_processClass
           HTMLDomStrings.default_includeTags Object_prototype
           ScannerSample.sample_root).
  vm_compute; reflexivity.
Defined.

Lemma typeset_isolates_failures_witness :
  AbstractMathDocument.typeset MoreSamples.typeset_retry
    AbstractMathDocument.default_typesetError PipelineSample.doc_retry []
  = (MkDocument
       ([set_item_state
           (set_typesetRoot (PipelineSample.item "x" false)
                            (adaptor.node "mjx-container" ∅ [])) 2]
        ++ PipelineSample.item "\require" false :: [PipelineSample.item "y" false])
       PipelineSample.flags0,
     ["typeset x"; "typeset \require"],
     Some PipelineSample.not_loaded).
Proof.
  apply (proj1 (typeset_isolates_failures
                  MoreSamples.typeset_retry
                  AbstractMathDocument.default_typesetError)
           PipelineSample.doc_retry [] [PipelineSample.item "x" false]
           (PipelineSample.item "\require" false) [PipelineSample.item "y" false]
           _ ["typeset x"]);
    reflexivity.
Defined.

Lemma stages_run_once_witness :
  PipelineSample.sample_run
    (PipelineSample.sample_run PipelineSample.doc_bad []).1.1 ["later"]
  = ((PipelineSample.sample_run PipelineSample.doc_bad []).1.1, ["later"], None).
Proof.
  apply (proj2 (proj2 (proj2 (proj2 (stages_run_once
           PipelineSample.sample_compile PipelineSample.sample_typeset
           PipelineSample.sample_update PipelineSample.sample_getMetrics
           AbstractMathDocument.default_compileError
           AbstractMathDocument.default_typesetError))))
         PipelineSample.doc_bad []
         _ (PipelineSample.sample_run PipelineSample.doc_bad []).1.2).
  vm_compute; reflexivity.
Defined.

Lemma updateDocument_propagates_witness :
  AbstractMathDocument.updateDocument MoreSamples.update_failing
    PipelineSample.doc_bad []
  = (MkDocument
       ([PipelineSample.item "x" false]
        ++ PipelineSample.item "\bad" true
           :: rev [set_item_state (PipelineSample.item "y" false) 3])
       PipelineSample.flags0,
     ["insert y"; "insert \bad"],
     Some PipelineSample.parse_error).
Proof.
  apply (updateDocument_propagates MoreSamples.update_failing
           PipelineSample.doc_bad [] [PipelineSample.item "x" false]
           (PipelineSample.item "\bad" true) [PipelineSample.item "y" false]
           _ ["insert y"]);
    reflexivity.
Defined.

Lemma pipeline_completes_witness :
  (MoreSamples.run_soft PipelineSample.doc_bad []).2 = None
  ∧ processed (MoreSamples.run_soft PipelineSample.doc_bad []).1.1
    = MkProcessed true true true true true
  ∧ length (doc_math (MoreSamples.run_soft PipelineSample.doc_bad []).1.1)
    = length (doc_math PipelineSample.doc_bad).
Proof.
  apply (pipeline_completes MoreSamples.compile_soft PipelineSample.sample_typeset
           PipelineSample.sample_update PipelineSample.sample_getMetrics
           AbstractMathDocument.default_compileError
           AbstractMathDocument.default_typesetError).
  - intros m w e. unfold MoreSamples.compile_soft.
    case_bool_decide; simpl; [by intros [= <-]|done].
  - done.
  - done.
  - done.
  - done.
  - done.
Defined.
